(** * DataAnalyzer: a shallow embedding of [data_analyzer.py]

    The class [DataAnalyzer] keeps a list of numbers, a name, a [processed]
    flag and a cached statistics dictionary [_stats].  The embedding follows
    the Python source statement by statement:

    - the dataset holds Python [int]s (unbounded, [Z]), as the sample data of
      [main] does;
    - [/] is Python's true division of two [int]s: the quotient rounded to the
      nearest binary64 value (ties to even), [OverflowError] when the rounded
      quotient does not fit, [ZeroDivisionError] for a zero divisor;
    - the statistics dictionary is a finite map from keys to Python values;
    - methods run in a small state-and-exception monad over the object and
      the standard output;
    - [self.data] is the caller's list, held by reference and extended in
      place: [Shared] keeps lists and objects by identity, so that several
      objects on one list see each other's appends. *)

From Stdlib Require Import ZArith QArith Qabs Lia.
From Stdlib Require Import Floats.SpecFloat.
From stdpp Require Import base option list sorting strings pretty gmap.

Local Open Scope Z_scope.

(** ** Binary64 values and Python's [int / int] *)

Module PyFloat.

(** A finite binary64 value [(-1)^fsign * fmant * 2^fexpo]. *)
Record float := Float { fsign : bool; fmant : Z; fexpo : Z }.

Definition prec : Z := 53.
Definition emin : Z := -1074.
Definition emax : Z := 971.

(** [pow2 k] is [2^k] for [0 <= k] and [1] below: a quotient is compared
    with [2^k] by scaling whichever side needs it. *)
Definition pow2 (k : Z) : Z := 2 ^ Z.max 0 k.

Definition signed_mant (f : float) : Z :=
  if fsign f then - fmant f else fmant f.

(** The exact rational value of a float. *)
Definition F2Q (f : float) : Q :=
  Qmake (signed_mant f * pow2 (fexpo f)) (Z.to_pos (pow2 (- fexpo f))).

(** [2^k <= x / y], for positive [x] and [y]. *)
Definition quot_ge_pow2 (x y k : Z) : bool :=
  y * pow2 k <=? x * pow2 (- k).

(** [floor (log2 (x / y))], for positive [x] and [y]. *)
Definition floor_log2_quot (x y : Z) : Z :=
  let d := Z.log2 x - Z.log2 y in
  if quot_ge_pow2 x y d then d else d - 1.

(** The integer nearest to [num / den], ties to the even one. *)
Definition round_half_even (num den : Z) : Z :=
  let q := num / den in
  let r := num mod den in
  match 2 * r ?= den with
  | Lt => q
  | Gt => q + 1
  | Eq => if Z.even q then q else q + 1
  end.

(** The exponent of the binary64 format at [x / y]. *)
Definition quot_exponent (x y : Z) : Z :=
  Z.max (floor_log2_quot x y - (prec - 1)) emin.

(** [x / y] in units of [2^e], rounded. *)
Definition quot_mantissa (x y e : Z) : Z :=
  round_half_even (x * pow2 (- e)) (y * pow2 e).

(** Rounding may carry into the next binade. *)
Definition renormalize (m e : Z) : Z * Z :=
  if m =? 2 ^ prec then (2 ^ (prec - 1), e + 1) else (m, e).

Inductive div_error := DivByZero | DivOverflow.

(** [a / b] on Python ints. *)
Definition int_true_divide (a b : Z) : div_error + float :=
  if b =? 0 then inl DivByZero
  else
    let negate := xorb (a <? 0) (b <? 0) in
    if a =? 0 then inr (Float negate 0 emin)
    else
      let x := Z.abs a in
      let y := Z.abs b in
      let e := quot_exponent x y in
      let '(m, e') := renormalize (quot_mantissa x y e) e in
      if emax <? e' then inl DivOverflow
      else inr (Float negate m e').

(** The same value in the Standard Library's IEEE 754 specification. *)
Definition to_spec (f : float) : spec_float :=
  match fmant f with
  | Zpos m => S754_finite (fsign f) m (fexpo f)
  | _ => S754_zero (fsign f)
  end.

(** The Standard Library's division at binary64, on integer mantissas. *)
Definition spec_div (a b : Z) : spec_float :=
  match a, b with
  | Zpos x, Zpos y => SFdiv 53 1024 (S754_finite false x 0) (S754_finite false y 0)
  | Zneg x, Zpos y => SFdiv 53 1024 (S754_finite true x 0) (S754_finite false y 0)
  | Zpos x, Zneg y => SFdiv 53 1024 (S754_finite false x 0) (S754_finite true y 0)
  | Zneg x, Zneg y => SFdiv 53 1024 (S754_finite true x 0) (S754_finite true y 0)
  | _, _ => S754_nan
  end.

(** [a / b] as the Standard Library's specification would give it, with an
    infinity where Python raises [OverflowError]. *)
Definition spec_of_quotient (a b : Z) : option spec_float :=
  match int_true_divide a b with
  | inr f => Some (to_spec f)
  | inl DivOverflow => Some (S754_infinity (xorb (a <? 0) (b <? 0)))
  | inl DivByZero => None
  end.

(** Quotients that are exact, inexact, ties, subnormal, zero after rounding,
    and out of range. *)
Definition division_samples : list (Z * Z) :=
  [(57, 2); (306, 8); (1, 3); (-7, 3); (7, -3); (-1, -10);
   (2 ^ 54 + 2, 2); (2 ^ 54 + 6, 2); (2 ^ 53 + 1, 1); (2 ^ 53 - 1, 2 ^ 53);
   (12345678901234567890123, 7); (10 ^ 400, 3); (1, 10 ^ 400);
   (3, 2 ^ 1075); (1, 2 ^ 1075); (1, 2 ^ 1076); (5, 2 ^ 1076); (-3, 2 ^ 1076);
   (2 ^ 1023, 1); (2 ^ 1024 - 2 ^ 970 - 1, 1); (2 ^ 1024 - 2 ^ 970, 1);
   (2 ^ 1024, 1); (- 2 ^ 1024, 1); (2 ^ 1025, 2)].

End PyFloat.

Import PyFloat.

(** ** Python values and builtins *)

Inductive exn :=
  | ZeroDivisionError
  | OverflowError
  | IndexError
  | ValueError
  | TypeError.

(** The values the program handles: the entries of the statistics
    dictionary and the arguments a caller may hand to [add_data]. *)
Inductive pyval :=
  | VNone
  | VBool (b : bool)
  | VInt (z : Z)
  | VFloat (f : float)
  | VStr (s : string)
  | VList (l : list Z)
  | VTuple (l : list Z)
  | VRange (start stop step : Z).

(** [isinstance(v, list)], with the list it then is. *)
Definition as_list (v : pyval) : option (list Z) :=
  match v with
  | VList l => Some l
  | _ => None
  end.

(** The sequence types among the values. *)
Definition is_sequence (v : pyval) : bool :=
  match v with
  | VStr _ | VList _ | VTuple _ | VRange _ _ _ => true
  | _ => false
  end.

(** Truth value of a list: [not l] holds for the empty list only. *)
Definition truthy {A} (l : list A) : bool :=
  match l with
  | [] => false
  | _ :: _ => true
  end.

Definition len {A} (l : list A) : Z := Z.of_nat (length l).

(** [sum(l)]: left to right from [0]. *)
Definition sum (l : list Z) : Z := fold_left Z.add l 0.

(** [min(l)]: the first element, replaced by each later one that is smaller;
    [ValueError] on the empty list. *)
Definition py_min (l : list Z) : exn + Z :=
  match l with
  | [] => inl ValueError
  | x :: t => inr (fold_left (λ m y, if y <? m then y else m) t x)
  end.

(** [max(l)]: the first element, replaced by each later one that is larger. *)
Definition py_max (l : list Z) : exn + Z :=
  match l with
  | [] => inl ValueError
  | x :: t => inr (fold_left (λ m y, if m <? y then y else m) t x)
  end.

(** [sorted(l)]: a new list, ascending, by a stable merge sort. *)
Definition sorted (l : list Z) : list Z := merge_sort Z.le l.

(** [l[i]]: negative indices count from the end; [IndexError] out of range. *)
Definition getitem (l : list Z) (i : Z) : exn + Z :=
  let j := if i <? 0 then i + len l else i in
  if (j <? 0) || (len l <=? j) then inl IndexError
  else
    match l !! Z.to_nat j with
    | Some x => inr x
    | None => inl IndexError
    end.

(** [a / b] on ints. *)
Definition true_div (a b : Z) : exn + float :=
  match int_true_divide a b with
  | inl DivByZero => inl ZeroDivisionError
  | inl DivOverflow => inl OverflowError
  | inr f => inr f
  end.

(** The value of a number, for comparisons: Python compares an [int] with a
    [float] exactly. *)
Definition num_value (v : pyval) : option Q :=
  match v with
  | VInt z => Some (inject_Z z)
  | VFloat f => Some (F2Q f)
  | _ => None
  end.

(** [u <= v] on numbers; [None] where Python raises [TypeError]. *)
Definition py_le (u v : pyval) : option bool :=
  match num_value u, num_value v with
  | Some p, Some q => Some (Qle_bool p q)
  | _, _ => None
  end.

(** ** The object and the monad its methods run in *)

Record DataAnalyzer := {
  data : list Z;
  name : string;
  processed : bool;
  _stats : option (gmap string pyval)
}.

Record world := World {
  self : DataAnalyzer;
  stdout : list string
}.

Inductive outcome (A : Type) :=
  | Returns (a : A) (w : world)
  | Raises (e : exn) (w : world).
Arguments Returns {A} a w.
Arguments Raises {A} e w.

Definition M (A : Type) : Type := world → outcome A.

Global Instance M_ret : MRet M := λ A a w, Returns a w.

Global Instance M_bind : MBind M := λ A B k c w,
  match c w with
  | Returns a w' => k a w'
  | Raises e w' => Raises e w'
  end.

Global Instance M_throw : MThrow exn M := λ A e w, Raises e w.

(** The world an outcome leaves behind. *)
Definition final {A} (o : outcome A) : world :=
  match o with
  | Returns _ w => w
  | Raises _ w => w
  end.

(** A pure computation that may raise. *)
Definition lift {A} (r : exn + A) : M A :=
  match r with
  | inl e => mthrow e
  | inr a => mret a
  end.

Definition get_self : M DataAnalyzer := λ w, Returns (self w) w.

Definition put_self (s : DataAnalyzer) : M unit :=
  λ w, Returns tt (World s (stdout w)).

(** [print(line)] *)
Definition print (line : string) : M unit :=
  λ w, Returns tt (World (self w) (stdout w ++ [line])).

(** [self.data.extend(l)] *)
Definition data_extend (l : list Z) : M unit :=
  s ← get_self;
  put_self {| data := data s ++ l; name := name s;
              processed := processed s; _stats := _stats s |}.

(** [self.processed = b] *)
Definition set_processed (b : bool) : M unit :=
  s ← get_self;
  put_self {| data := data s; name := name s;
              processed := b; _stats := _stats s |}.

(** [self._stats = d] *)
Definition set_stats (d : option (gmap string pyval)) : M unit :=
  s ← get_self;
  put_self {| data := data s; name := name s;
              processed := processed s; _stats := d |}.

(** [self._stats[k] = v]; [None] does not support item assignment. *)
Definition stats_setitem (k : string) (v : pyval) : M unit :=
  s ← get_self;
  match _stats s with
  | Some d => set_stats (Some (<[k := v]> d))
  | None => mthrow TypeError
  end.

(** ** The class *)

(** [DataAnalyzer(data, name)]: the object as its methods see it, [data]
    being the content of the list that [self.data] refers to. *)
Definition __init__ (data : list Z) (name : string) : DataAnalyzer :=
  {| data := data; name := name; processed := false; _stats := None |}.

Definition default_name : string := "Default Dataset".

(** [process(self)] *)
Definition process : M bool :=
  s ← get_self;
  if negb (truthy (data s)) then
    print "No data to process";;
    mret false
  else
    mean ← (if truthy (data s)
            then f ← lift (true_div (sum (data s)) (len (data s))); mret (VFloat f)
            else mret VNone);
    lo ← (if truthy (data s)
          then z ← lift (py_min (data s)); mret (VInt z)
          else mret VNone);
    hi ← (if truthy (data s)
          then z ← lift (py_max (data s)); mret (VInt z)
          else mret VNone);
    set_stats (Some (<["max" := hi]> (<["min" := lo]> (<["mean" := mean]>
                (<["sum" := VInt (sum (data s))]>
                  (<["count" := VInt (len (data s))]> ∅))))));;
    let sorted_data := sorted (data s) in
    let n := len sorted_data in
    (if n mod 2 =? 0 then
       a ← lift (getitem sorted_data (n / 2 - 1));
       b ← lift (getitem sorted_data (n / 2));
       f ← lift (true_div (a + b) 2);
       stats_setitem "median" (VFloat f)
     else
       a ← lift (getitem sorted_data (n / 2));
       stats_setitem "median" (VInt a));;
    set_processed true;;
    mret true.

(** [get_statistics(self)]: the dictionary, or [None]. *)
Definition get_statistics : M (option (gmap string pyval)) :=
  s ← get_self;
  if negb (processed s) then
    print "Data has not been processed yet. Call process() first.";;
    mret None
  else
    mret (_stats s).

(** [add_data(self, new_data)] *)
Definition add_data (new_data : pyval) : M bool :=
  match as_list new_data with
  | None =>
      print "New data must be a list";;
      mret false
  | Some l =>
      data_extend l;;
      set_processed false;;
      mret true
  end.

(** [str(b)] for a bool, as an f-string renders it. *)
Definition bool_repr (b : bool) : string :=
  if b then "True" else "False".

(** [__str__(self)]: the f-string
    [DataAnalyzer(name='...', count=..., processed=...)]. *)
Definition __str__ (s : DataAnalyzer) : string :=
  "DataAnalyzer(name='" +:+ name s +:+ "', count=" +:+ pretty (len (data s))
    +:+ ", processed=" +:+ bool_repr (processed s) +:+ ")".

(** The sample of [main]. *)
Definition sample_data : list Z := [12; 15; 23; 45; 67; 89; 21; 34].

(** ** The statistics as functions of the data *)

(** The dictionary [process] stores first: count, sum, mean, min and max. *)
Definition summary (l : list Z) : exn + gmap string pyval :=
  match true_div (sum l) (len l) with
  | inl e => inl e
  | inr f =>
      match py_min l with
      | inl e => inl e
      | inr lo =>
          match py_max l with
          | inl e => inl e
          | inr hi =>
              inr (<["max" := VInt hi]> (<["min" := VInt lo]>
                    (<["mean" := VFloat f]> (<["sum" := VInt (sum l)]>
                      (<["count" := VInt (len l)]> ∅)))))
          end
      end
  end.

(** The value [process] then stores under ["median"]. *)
Definition median (l : list Z) : exn + pyval :=
  let sorted_data := sorted l in
  let n := len sorted_data in
  if n mod 2 =? 0 then
    match getitem sorted_data (n / 2 - 1) with
    | inl e => inl e
    | inr a =>
        match getitem sorted_data (n / 2) with
        | inl e => inl e
        | inr b =>
            match true_div (a + b) 2 with
            | inl e => inl e
            | inr f => inr (VFloat f)
            end
        end
    end
  else
    match getitem sorted_data (n / 2) with
    | inl e => inl e
    | inr a => inr (VInt a)
    end.

(** The complete dictionary of a successful [process]. *)
Definition snapshot (l : list Z) : exn + gmap string pyval :=
  match summary l with
  | inl e => inl e
  | inr d =>
      match median l with
      | inl e => inl e
      | inr m => inr (<["median" := m]> d)
      end
  end.

(** ** Histories of calls *)

Inductive call :=
  | CallProcess
  | CallGetStatistics
  | CallAddData (new_data : pyval).

(** The world after a call, whether it returned or raised. *)
Definition run (c : call) (w : world) : world :=
  match c with
  | CallProcess => final (process w)
  | CallGetStatistics => final (get_statistics w)
  | CallAddData v => final (add_data v w)
  end.

Definition run_all (cs : list call) (w : world) : world :=
  fold_left (λ w c, run c w) cs w.

(** The worlds of one object whose list nobody else extends: a new object,
    then calls of its methods.  [self.data] is the list the caller handed
    in, held by reference; several objects on one list are in [Shared]
    below. *)
Inductive reachable : world → Prop :=
  | reachable_new l n out : reachable (World (__init__ l n) out)
  | reachable_call c w : reachable w → reachable (run c w).

(** The cached dictionary is the complete one of the current data. *)
Definition fresh (s : DataAnalyzer) : Prop :=
  ∃ d, _stats s = Some d ∧ snapshot (data s) = inr d.

(** The messages the methods print. *)
Definition no_data_msg : string := "No data to process".
Definition not_processed_msg : string :=
  "Data has not been processed yet. Call process() first.".
Definition not_a_list_msg : string := "New data must be a list".

(** The world a successful [process] leaves, with dictionary [d]. *)
Definition after_process (w : world) (d : gmap string pyval) : world :=
  World {| data := data (self w); name := name (self w);
           processed := true; _stats := Some d |} (stdout w).

(** Every element of [l] has magnitude at most [B]. *)
Definition within (B : Z) (l : list Z) : Prop :=
  Forall (λ v, Z.abs v <= B) l.


(** The keys of a complete dictionary. *)
Definition stats_keys : gset string :=
  {["count"; "sum"; "mean"; "min"; "max"; "median"]}.

(** How many elements of [l] are at most, and at least, the number [m]
    under Python's comparison. *)
Definition count_le (m : pyval) (l : list Z) : nat :=
  length (filter (λ v, py_le (VInt v) m = Some true) l).

Definition count_ge (m : pyval) (l : list Z) : nat :=
  length (filter (λ v, py_le m (VInt v) = Some true) l).

(** The elements a call appends: the argument of an accepted [add_data]. *)
Definition accepted (c : call) : list Z :=
  match c with
  | CallAddData v => default [] (as_list v)
  | _ => []
  end.

(** ** Several objects and the lists they hold

    [__init__] stores the caller's list itself and [add_data] extends it in
    place, so objects built on one list share it.  A heap keeps the lists
    and the objects by identity; a method call runs the method on the
    object as it sees itself, with [self.data] read through its reference,
    and writes the list and the other fields back. *)

Module Shared.

Record object := Object {
  data_ref : nat;
  obj_name : string;
  obj_processed : bool;
  obj_stats : option (gmap string pyval)
}.

Record heap := Heap {
  lists : list (list Z);
  objects : list object;
  output : list string
}.

(** What a caller does: build a list, build an analyzer on a list it holds,
    call a method of an analyzer. *)
Inductive action :=
  | NewList (l : list Z)
  | NewAnalyzer (r : nat) (n : string)
  | Method (o : nat) (c : call).

(** The object as its methods see it. *)
Definition view (h : heap) (ob : object) : option world :=
  match lists h !! data_ref ob with
  | Some l =>
      Some (World {| data := l; name := obj_name ob;
                     processed := obj_processed ob;
                     _stats := obj_stats ob |} (output h))
  | None => None
  end.

(** The heap after a method of object [o] has left the world [w]: the list
    it refers to holds the data, the object the other fields. *)
Definition store (h : heap) (o : nat) (ob : object) (w : world) : heap :=
  Heap (<[data_ref ob := data (self w)]> (lists h))
       (<[o := Object (data_ref ob) (name (self w)) (processed (self w))
                      (_stats (self w))]> (objects h))
       (stdout w).

(** [DataAnalyzer(data, n)] with [data] the list of identity [r]. *)
Definition new_analyzer (r : nat) (n : string) : object :=
  let s := __init__ [] n in
  Object r (name s) (processed s) (_stats s).

Definition step (a : action) (h : heap) : heap :=
  match a with
  | NewList l => Heap (lists h ++ [l]) (objects h) (output h)
  | NewAnalyzer r n =>
      if decide (r < length (lists h))%nat
      then Heap (lists h) (objects h ++ [new_analyzer r n]) (output h)
      else h
  | Method o c =>
      match objects h !! o with
      | Some ob =>
          match view h ob with
          | Some w => store h o ob (run c w)
          | None => h
          end
      | None => h
      end
  end.

Definition run_actions (acts : list action) (h : heap) : heap :=
  fold_left (λ h a, step a h) acts h.

(** The heaps a caller can bring about from nothing. *)
Inductive reachable : heap → Prop :=
  | reachable_empty out : reachable (Heap [] [] out)
  | reachable_step a h : reachable h → reachable (step a h).

(** No other object holds the list of object [o]. *)
Definition sole_holder (h : heap) (o : nat) : Prop :=
  ∀ o' r, (data_ref <$> objects h) !! o = Some r →
          (data_ref <$> objects h) !! o' = Some r → o' = o.

End Shared.

(** ** Facts about the division *)

Section division_facts.

Lemma pow2_pos k : 0 < pow2 k.
Proof. unfold pow2. apply Z.pow_pos_nonneg; lia. Qed.

Lemma pow2_of_nonneg k : 0 <= k → pow2 k = 2 ^ k.
Proof. intros Hk. unfold pow2. now rewrite Z.max_r. Qed.

Lemma pow2_of_nonpos k : k <= 0 → pow2 k = 1.
Proof. intros Hk. unfold pow2. now rewrite Z.max_l. Qed.

(** On the samples the division is the Standard Library's [SFdiv] at
    binary64. *)
Example int_true_divide_agrees_with_SFdiv :
  map (λ p, spec_of_quotient p.1 p.2) division_samples
  = map (λ p, Some (spec_div p.1 p.2)) division_samples.
Proof. vm_compute. reflexivity. Qed.

(** Both sides of [y * 2^k <= x] brought to a common scale [2^c]. *)
Lemma scaled_le_iff x y k c :
  0 <= c → 0 <= k + c →
  y * pow2 k <= x * pow2 (- k) ↔ y * 2 ^ (k + c) <= x * 2 ^ c.
Proof.
  intros Hc Hkc.
  destruct (Z.le_gt_cases 0 k) as [Hk | Hk].
  - rewrite (pow2_of_nonneg k), (pow2_of_nonpos (- k)) by lia.
    rewrite Z.pow_add_r, Z.mul_1_r, Z.mul_assoc by lia.
    apply Z.mul_le_mono_pos_r. apply Z.pow_pos_nonneg; lia.
  - rewrite (pow2_of_nonpos k), (pow2_of_nonneg (- k)) by lia.
    replace c with (- k + (k + c)) at 2 by lia.
    rewrite (Z.pow_add_r 2 (- k) (k + c)), Z.mul_1_r, Z.mul_assoc by lia.
    apply Z.mul_le_mono_pos_r. apply Z.pow_pos_nonneg; lia.
Qed.

Lemma quot_ge_pow2_iff x y k c :
  0 <= c → 0 <= k + c →
  quot_ge_pow2 x y k = true ↔ y * 2 ^ (k + c) <= x * 2 ^ c.
Proof.
  intros. unfold quot_ge_pow2. rewrite Z.leb_le. by apply scaled_le_iff.
Qed.

Lemma quot_ge_pow2_mono x y k k' :
  0 < y → k <= k' →
  quot_ge_pow2 x y k' = true → quot_ge_pow2 x y k = true.
Proof.
  intros Hy Hk.
  rewrite (quot_ge_pow2_iff x y k' (Z.abs k + Z.abs k')) by lia.
  rewrite (quot_ge_pow2_iff x y k (Z.abs k + Z.abs k')) by lia.
  intros H. etrans; [| exact H].
  apply Z.mul_le_mono_nonneg_l; [lia |].
  apply Z.pow_le_mono_r; lia.
Qed.

Lemma floor_log2_quot_spec x y :
  0 < x → 0 < y →
  quot_ge_pow2 x y (floor_log2_quot x y) = true
  ∧ quot_ge_pow2 x y (floor_log2_quot x y + 1) = false.
Proof.
  intros Hx Hy.
  destruct (Z.log2_spec x Hx) as [Hx1 Hx2].
  destruct (Z.log2_spec y Hy) as [Hy1 Hy2].
  pose proof (Z.log2_nonneg x) as Hlx.
  pose proof (Z.log2_nonneg y) as Hly.
  set (lx := Z.log2 x) in *. set (ly := Z.log2 y) in *.
  assert (Hlow : quot_ge_pow2 x y (lx - ly - 1) = true).
  { apply (quot_ge_pow2_iff x y _ (ly + 1)); [lia .. |].
    replace (lx - ly - 1 + (ly + 1)) with lx by lia.
    assert (y <= 2 ^ (ly + 1)) by (unfold Z.succ in Hy2; lia).
    assert (0 < 2 ^ lx) by (apply Z.pow_pos_nonneg; lia).
    nia. }
  assert (Hhigh : quot_ge_pow2 x y (lx - ly + 1) = false).
  { apply not_true_is_false.
    rewrite (quot_ge_pow2_iff x y _ ly) by lia.
    replace (lx - ly + 1 + ly) with (lx + 1) by lia.
    assert (x < 2 ^ (lx + 1)) by (unfold Z.succ in Hx2; lia).
    assert (0 < 2 ^ ly) by (apply Z.pow_pos_nonneg; lia).
    nia. }
  unfold floor_log2_quot. fold lx ly.
  destruct (quot_ge_pow2 x y (lx - ly)) eqn:Hd.
  - by split.
  - split; [done |]. by replace (lx - ly - 1 + 1) with (lx - ly) by lia.
Qed.

Lemma round_half_even_exact k den :
  0 < den → round_half_even (k * den) den = k.
Proof.
  intros Hden. unfold round_half_even.
  rewrite Z.mod_mul, Z.div_mul by lia.
  assert ((2 * 0 ?= den) = Lt) as -> by (apply Z.compare_lt_iff; lia).
  done.
Qed.


Lemma round_half_even_upper num den B :
  0 < den → num < B * den → round_half_even num den <= B.
Proof.
  intros Hden Hnum.
  assert (num / den < B) by (apply Z.div_lt_upper_bound; lia).
  unfold round_half_even.
  destruct (2 * (num mod den) ?= den); [destruct (Z.even _) | |]; lia.
Qed.

Lemma round_half_even_lower num den B :
  0 < den → B * den <= num → B <= round_half_even num den.
Proof.
  intros Hden Hnum.
  assert (B <= num / den) by (apply Z.div_le_lower_bound; lia).
  unfold round_half_even.
  destruct (2 * (num mod den) ?= den); [destruct (Z.even _) | |]; lia.
Qed.

(** [floor (log2 (x / y))] is at most [k] when [x / y < 2^(k+1)]. *)
Lemma floor_log2_quot_le x y k :
  0 < x → 0 < y → x < y * 2 ^ (k + 1) → 0 <= k + 1 →
  floor_log2_quot x y <= k.
Proof.
  intros Hx Hy Hlt Hk.
  destruct (floor_log2_quot_spec x y Hx Hy) as [Hlo _].
  destruct (Z.le_gt_cases (floor_log2_quot x y) k) as [| Hgt]; [done |].
  exfalso.
  apply (quot_ge_pow2_mono x y (k + 1)) in Hlo; [| lia ..].
  apply (quot_ge_pow2_iff x y (k + 1) 0) in Hlo; [| lia ..].
  rewrite Z.add_0_r, Z.pow_0_r in Hlo. lia.
Qed.

(** Ints of magnitude up to [2^1023] times the divisor do not overflow. *)
Lemma int_true_divide_in_range a b :
  b ≠ 0 → Z.abs a <= 2 ^ 1023 * Z.abs b →
  ∃ f, int_true_divide a b = inr f.
Proof.
  intros Hb Hab. unfold int_true_divide.
  destruct (Z.eqb_spec b 0) as [| _]; [done |].
  destruct (Z.eqb_spec a 0) as [| Ha]; [eauto |].
  set (x := Z.abs a) in *. set (y := Z.abs b) in *.
  assert (Hx : 0 < x) by lia. assert (Hy : 0 < y) by lia.
  destruct (floor_log2_quot_spec x y Hx Hy) as [Hlo _].
  assert (Hfl : floor_log2_quot x y <= 1023).
  { apply floor_log2_quot_le; [done .. | | lia].
    change (2 ^ (1023 + 1)) with (2 * 2 ^ 1023). lia. }
  unfold quot_exponent, renormalize, prec, emin, emax.
  set (fl := floor_log2_quot x y) in *.
  set (e := Z.max (fl - (53 - 1)) (-1074)).
  destruct (Z.eqb_spec (quot_mantissa x y e) (2 ^ 53)) as [Hm | _].
  - destruct (Z.ltb_spec 971 (e + 1)) as [He | _]; [| eauto].
    exfalso.
    assert (fl = 1023 ∧ e = 971) as [Hfl' He'] by lia.
    rewrite Hfl' in Hlo.
    apply (quot_ge_pow2_iff x y 1023 0) in Hlo; [| lia ..].
    rewrite Z.add_0_r, Z.pow_0_r in Hlo.
    assert (Hxy : x = 2 ^ 52 * (y * 2 ^ 971)).
    { change (2 ^ 1023) with (2 ^ 52 * 2 ^ 971) in *. lia. }
    unfold quot_mantissa in Hm. rewrite He' in Hm.
    rewrite (pow2_of_nonpos (Z.opp 971)), (pow2_of_nonneg 971) in Hm by lia.
    rewrite Z.mul_1_r, Hxy, round_half_even_exact in Hm.
    + discriminate Hm.
    + assert (0 < 2 ^ 971) by (apply Z.pow_pos_nonneg; lia). nia.
  - destruct (Z.ltb_spec 971 e) as [He | _]; [lia | eauto].
Qed.

(** Halving an int of magnitude up to [2^53] is exact. *)
Lemma int_true_divide_half a :
  Z.abs a <= 2 ^ 53 →
  ∃ f, int_true_divide a 2 = inr f ∧ (F2Q f == a # 2)%Q.
Proof.
  intros Hab. unfold int_true_divide.
  destruct (Z.eqb_spec 2 0) as [| _]; [done |].
  destruct (Z.eqb_spec a 0) as [-> | Ha].
  { eexists. split; [done |]. done. }
  set (x := Z.abs a) in *.
  assert (Hx : 0 < x) by lia.
  destruct (floor_log2_quot_spec x 2 Hx) as [Hlo Hhi]; [lia |].
  assert (Hfl : floor_log2_quot x 2 <= 52).
  { apply floor_log2_quot_le; [lia .. | | lia].
    change (2 ^ (52 + 1)) with (2 ^ 53). lia. }
  set (fl := floor_log2_quot x 2) in *.
  assert (Hfl' : -1 <= fl).
  { destruct (Z.le_gt_cases (-1) fl) as [| Hlt]; [done |]. exfalso.
    apply not_true_iff_false in Hhi. apply Hhi.
    apply (quot_ge_pow2_mono x 2 _ (-1)); [lia .. |].
    apply (quot_ge_pow2_iff x 2 (-1) 1); [lia .. |].
    change (2 * 2 ^ (-1 + 1) <= x * 2 ^ 1). lia. }
  apply (quot_ge_pow2_iff x 2 fl 1) in Hlo; [| lia ..].
  unfold quot_exponent, prec, emin, emax.
  change (Z.abs 2) with 2. fold fl. rewrite Z.max_l by lia.
  set (e := fl - (53 - 1)).
  assert (Hpe : pow2 e = 1) by (apply pow2_of_nonpos; lia).
  assert (Hpe' : pow2 (- e) = 2 ^ (- e)) by (apply pow2_of_nonneg; lia).
  assert (Hm : quot_mantissa x 2 e * 2 = x * 2 ^ (- e)).
  { unfold quot_mantissa. rewrite Hpe, Hpe', Z.mul_1_r.
    destruct (Z.eq_dec e 0) as [He | He].
    - assert (fl = 52) as Hfl52 by lia. rewrite Hfl52 in Hlo.
      change (2 * 2 ^ (52 + 1) <= x * 2 ^ 1) in Hlo.
      assert (x = 2 ^ 52 * 2) as -> by (change (2 ^ 53) with (2 ^ 52 * 2) in Hab; lia).
      rewrite He. change (2 ^ (- 0)) with 1.
      rewrite Z.mul_1_r, round_half_even_exact; lia.
    - replace (- e) with (- e - 1 + 1) by lia.
      rewrite Z.pow_add_r by lia. change (2 ^ 1) with 2.
      rewrite Z.mul_assoc, round_half_even_exact; lia. }
  assert (Hsign : (if a <? 0 then - x else x) = a).
  { unfold x. destruct (Z.ltb_spec a 0); lia. }
  change (2 <? 0) with false. rewrite xorb_false_r.
  unfold renormalize, prec.
  destruct (Z.eqb_spec (quot_mantissa x 2 e) (2 ^ 53)) as [Hm53 | _].
  - destruct (Z.ltb_spec 971 (e + 1)) as [He | _]; [lia |].
    eexists. split; [done |].
    unfold F2Q, signed_mant, Qeq. cbn [fsign fmant fexpo Qnum Qden].
    rewrite Z2Pos.id by apply pow2_pos.
    assert (e <> 0).
    { intros He0. rewrite Hm53, He0 in Hm.
      change (2 ^ 53 * 2 = x * 1) in Hm. lia. }
    rewrite (pow2_of_nonpos (e + 1)), (pow2_of_nonneg (- (e + 1))) by lia.
    replace (- e) with (- (e + 1) + 1) in Hm by lia.
    rewrite Z.pow_add_r in Hm by lia. change (2 ^ 1) with 2 in Hm.
    rewrite Hm53 in Hm. change (2 ^ 53) with (2 ^ (53 - 1) * 2) in Hm.
    destruct (a <? 0); lia.
  - destruct (Z.ltb_spec 971 e) as [He | _]; [lia |].
    eexists. split; [done |].
    unfold F2Q, signed_mant, Qeq. cbn [fsign fmant fexpo Qnum Qden].
    rewrite Z2Pos.id by apply pow2_pos.
    rewrite Hpe, Hpe'.
    destruct (a <? 0); lia.
Qed.

End division_facts.

(** ** Facts about the builtins *)

Section builtin_facts.

Lemma truthy_nonempty {A} (l : list A) : l ≠ [] → truthy l = true.
Proof. by destruct l. Qed.

Lemma len_pos {A} (l : list A) : l ≠ [] → 0 < len l.
Proof. destruct l; [done |]. unfold len. cbn [length]. lia. Qed.

Lemma sum_bound B (l : list Z) acc :
  Forall (λ v, Z.abs v <= B) l →
  Z.abs (fold_left Z.add l acc) <= Z.abs acc + B * len l.
Proof.
  unfold len. intros H. revert acc.
  induction H as [| v l Hv _ IH]; intros acc; cbn [fold_left length].
  - lia.
  - specialize (IH (acc + v)). lia.
Qed.

Lemma py_min_spec (l : list Z) :
  l ≠ [] → ∃ m, py_min l = inr m ∧ m ∈ l ∧ Forall (λ v, m <= v) l.
Proof.
  destruct l as [| x t]; [done | intros _].
  eexists. split; [done |]. cbn [py_min].
  assert (∀ acc pre, acc ∈ pre → Forall (λ v, acc <= v) pre →
    let m := fold_left (λ m y, if y <? m then y else m) t acc in
    m ∈ pre ++ t ∧ Forall (λ v, m <= v) (pre ++ t)) as Hgen.
  { induction t as [| y t IH]; intros acc pre Hin Hall; cbn [fold_left].
    - by rewrite app_nil_r.
    - rewrite (cons_middle y pre t), app_assoc.
      apply IH.
      + rewrite elem_of_app, list_elem_of_singleton.
        destruct (Z.ltb_spec y acc); auto.
      + apply Forall_app. split.
        * eapply Forall_impl; [exact Hall |].
          intros v Hv. cbn beta in Hv. destruct (Z.ltb_spec y acc); lia.
        * apply Forall_singleton. destruct (Z.ltb_spec y acc); lia. }
  apply (Hgen x [x]); [by apply list_elem_of_singleton | by apply Forall_singleton].
Qed.

Lemma py_max_spec (l : list Z) :
  l ≠ [] → ∃ m, py_max l = inr m ∧ m ∈ l ∧ Forall (λ v, v <= m) l.
Proof.
  destruct l as [| x t]; [done | intros _].
  eexists. split; [done |]. cbn [py_max].
  assert (∀ acc pre, acc ∈ pre → Forall (λ v, v <= acc) pre →
    let m := fold_left (λ m y, if m <? y then y else m) t acc in
    m ∈ pre ++ t ∧ Forall (λ v, v <= m) (pre ++ t)) as Hgen.
  { induction t as [| y t IH]; intros acc pre Hin Hall; cbn [fold_left].
    - by rewrite app_nil_r.
    - rewrite (cons_middle y pre t), app_assoc.
      apply IH.
      + rewrite elem_of_app, list_elem_of_singleton.
        destruct (Z.ltb_spec acc y); auto.
      + apply Forall_app. split.
        * eapply Forall_impl; [exact Hall |].
          intros v Hv. cbn beta in Hv. destruct (Z.ltb_spec acc y); lia.
        * apply Forall_singleton. destruct (Z.ltb_spec acc y); lia. }
  apply (Hgen x [x]); [by apply list_elem_of_singleton | by apply Forall_singleton].
Qed.

Lemma sorted_Sorted l : Sorted Z.le (sorted l).
Proof. apply (Sorted_merge_sort Z.le). Qed.

Lemma sorted_Permutation l : sorted l ≡ₚ l.
Proof. apply (merge_sort_Permutation Z.le). Qed.

(** [sorted l] is the one ascending rearrangement of [l]. *)
Lemma sorted_unique l s : Sorted Z.le s → s ≡ₚ l → sorted l = s.
Proof.
  intros Hs Hp. apply (Sorted_unique Z.le); [apply sorted_Sorted | done |].
  by rewrite sorted_Permutation.
Qed.

Lemma len_sorted l : len (sorted l) = len l.
Proof. unfold len. by rewrite (Permutation_length (sorted_Permutation l)). Qed.

Lemma getitem_in_range (l : list Z) i :
  0 <= i < len l →
  ∃ x, l !! Z.to_nat i = Some x ∧ getitem l i = inr x.
Proof.
  intros Hi. unfold getitem.
  destruct (Z.ltb_spec i 0); [lia |].
  destruct (Z.ltb_spec i 0); [lia |].
  destruct (Z.leb_spec (len l) i); [lia |]. cbn [orb].
  destruct (lookup_lt_is_Some_2 l (Z.to_nat i)) as [x Hx].
  { unfold len in *. lia. }
  exists x. by rewrite Hx.
Qed.

Lemma Sorted_le_lookup (s : list Z) i j a b :
  Sorted Z.le s → s !! i = Some a → s !! j = Some b → (i <= j)%nat → a <= b.
Proof.
  intros Hs. apply (Sorted_StronglySorted Z.le) in Hs.
  revert i j. induction Hs as [| x s Hs IH Hx]; intros i j Hi Hj Hij.
  - done.
  - destruct i as [| i], j as [| j]; simplify_eq/=; try lia.
    + rewrite Forall_forall in Hx. apply Hx.
      by eapply list_elem_of_lookup_2.
    + apply (IH i j); [done .. | lia].
Qed.

End builtin_facts.

(** ** [process] unfolded *)

Section process_facts.

(** What [process] does, by cases on the data. *)
Lemma process_eq w :
  process w =
  match data (self w) with
  | [] => Returns false (World (self w) (stdout w ++ [no_data_msg]))
  | _ :: _ =>
      match summary (data (self w)) with
      | inl e => Raises e w
      | inr d =>
          match median (data (self w)) with
          | inl e =>
              Raises e (World {| data := data (self w); name := name (self w);
                                 processed := processed (self w);
                                 _stats := Some d |} (stdout w))
          | inr m =>
              Returns true
                (World {| data := data (self w); name := name (self w);
                          processed := true;
                          _stats := Some (<["median" := m]> d) |} (stdout w))
          end
      end
  end.
Proof.
  destruct w as [[l n p st] out]. destruct l as [| x t]; [done |].
  unfold process, summary, median.
  cbn [self data name processed _stats stdout].
  set (l := x :: t).
  unfold mbind, M_bind, get_self, lift, mret, M_ret, mthrow, M_throw.
  cbn [self data truthy negb].
  destruct (true_div (sum l) (len l)) as [e | f]; [done |].
  destruct (py_min l) as [e | lo]; [done |].
  destruct (py_max l) as [e | hi]; [done |].
  unfold set_stats, stats_setitem, set_processed, put_self, get_self,
    mbind, M_bind, mret, M_ret, mthrow, M_throw.
  cbn [self data name processed _stats stdout].
  destruct (len (sorted l) mod 2 =? 0).
  - destruct (getitem (sorted l) (len (sorted l) / 2 - 1)) as [e | a]; [done |].
    destruct (getitem (sorted l) (len (sorted l) / 2)) as [e | b]; [done |].
    by destruct (true_div (a + b) 2) as [e | g].
  - by destruct (getitem (sorted l) (len (sorted l) / 2)) as [e | a].
Qed.

Lemma summary_in_range l :
  l ≠ [] → within (2 ^ 1023) l →
  ∃ f lo hi,
    true_div (sum l) (len l) = inr f ∧
    py_min l = inr lo ∧ py_max l = inr hi ∧
    summary l = inr (<["max" := VInt hi]> (<["min" := VInt lo]>
                  (<["mean" := VFloat f]> (<["sum" := VInt (sum l)]>
                    (<["count" := VInt (len l)]> ∅))))).
Proof.
  intros Hl Hb.
  destruct (int_true_divide_in_range (sum l) (len l)) as [f Hf].
  { pose proof (len_pos l Hl). lia. }
  { pose proof (sum_bound (2 ^ 1023) l 0 Hb) as Hs.
    pose proof (len_pos l Hl). fold (sum l) in Hs.
    rewrite (Z.abs_eq (len l)) by lia. change (Z.abs 0) with 0 in Hs. lia. }
  destruct (py_min_spec l Hl) as (lo & Hlo & _).
  destruct (py_max_spec l Hl) as (hi & Hhi & _).
  exists f, lo, hi. unfold summary, true_div. by rewrite Hf, Hlo, Hhi.
Qed.

(** The two middle positions of an even-length list, the middle one of an
    odd-length list. *)
Lemma median_even l :
  l ≠ [] → len l mod 2 = 0 →
  ∃ a b,
    sorted l !! Z.to_nat (len l / 2 - 1) = Some a ∧
    sorted l !! Z.to_nat (len l / 2) = Some b ∧
    a <= b ∧
    median l = match true_div (a + b) 2 with
               | inl e => inl e
               | inr f => inr (VFloat f)
               end.
Proof.
  intros Hl Hn. pose proof (len_pos l Hl) as Hpos.
  assert (2 <= len l) as H2.
  { destruct (Z.eq_dec (len l) 1) as [H1 | H1]; [by rewrite H1 in Hn | lia]. }
  pose proof (Z.div_mod (len l) 2) as Hdm.
  destruct (getitem_in_range (sorted l) (len l / 2 - 1)) as (a & Ha & Hga).
  { rewrite len_sorted. lia. }
  destruct (getitem_in_range (sorted l) (len l / 2)) as (b & Hb & Hgb).
  { rewrite len_sorted. lia. }
  exists a, b. split_and!; [done | done | |].
  - eapply (Sorted_le_lookup (sorted l)); [apply sorted_Sorted | done .. | lia].
  - unfold median. rewrite len_sorted, Hn, Hga, Hgb. done.
Qed.

Lemma median_odd l :
  l ≠ [] → len l mod 2 ≠ 0 →
  ∃ a,
    sorted l !! Z.to_nat (len l / 2) = Some a ∧
    median l = inr (VInt a).
Proof.
  intros Hl Hn. pose proof (len_pos l Hl) as Hpos.
  pose proof (Z.div_mod (len l) 2) as Hdm.
  pose proof (Z.mod_pos_bound (len l) 2) as Hmb.
  destruct (getitem_in_range (sorted l) (len l / 2)) as (a & Ha & Hga).
  { rewrite len_sorted. lia. }
  exists a. split; [done |].
  unfold median. rewrite len_sorted, Hga.
  by destruct (Z.eqb_spec (len l mod 2) 0).
Qed.

End process_facts.

(** ** The other methods unfolded *)

Section method_facts.

Lemma get_statistics_eq w :
  get_statistics w =
  if processed (self w) then Returns (_stats (self w)) w
  else Returns None (World (self w) (stdout w ++ [not_processed_msg])).
Proof. destruct w as [[l n p st] out]. by destruct p. Qed.

(** [get_statistics] leaves the object as it was. *)
Lemma get_statistics_final w : self (final (get_statistics w)) = self w.
Proof. rewrite get_statistics_eq. by destruct (processed (self w)). Qed.

Lemma add_data_eq v w :
  add_data v w =
  match as_list v with
  | None => Returns false (World (self w) (stdout w ++ [not_a_list_msg]))
  | Some l =>
      Returns true
        (World {| data := data (self w) ++ l; name := name (self w);
                  processed := false; _stats := _stats (self w) |} (stdout w))
  end.
Proof. destruct w as [[l n p st] out]. by destruct v. Qed.

(** A rejected argument: the object is untouched, one line is printed. *)
Lemma add_data_rejects v w :
  as_list v = None →
  add_data v w = Returns false (World (self w) (stdout w ++ [not_a_list_msg])).
Proof. intros Hv. by rewrite add_data_eq, Hv. Qed.

(** The only exception a nonzero divisor leaves is [OverflowError]. *)
Lemma true_div_error a b e :
  b ≠ 0 → true_div a b = inl e → e = OverflowError.
Proof.
  intros Hb. unfold true_div, int_true_divide.
  destruct (Z.eqb_spec b 0) as [| _]; [done |].
  destruct (a =? 0); [done |].
  destruct (renormalize _ _) as [m e'].
  destruct (emax <? e'); [| done]. by intros [= <-].
Qed.

Lemma summary_error l e :
  l ≠ [] → summary l = inl e → e = OverflowError.
Proof.
  intros Hl. unfold summary.
  destruct (true_div (sum l) (len l)) as [e' | f] eqn:Hd.
  - intros [= <-]. pose proof (len_pos l Hl).
    apply (true_div_error (sum l) (len l)); [lia | done].
  - destruct (py_min_spec l Hl) as (lo & -> & _).
    by destruct (py_max_spec l Hl) as (hi & -> & _).
Qed.

Lemma median_error l e :
  l ≠ [] → median l = inl e → e = OverflowError.
Proof.
  intros Hl. destruct (Z.eq_dec (len l mod 2) 0) as [Hn | Hn].
  - destruct (median_even l Hl Hn) as (a & b & _ & _ & _ & ->).
    destruct (true_div (a + b) 2) as [e' | f] eqn:Hd; [| done].
    intros [= <-]. by apply (true_div_error (a + b) 2).
  - by destruct (median_odd l Hl Hn) as (a & _ & ->).
Qed.

(** The state a finished [process] leaves depends on the data alone, apart
    from the name and from a [processed] flag left as it was. *)
Lemma process_final_data w : data (self (final (process w))) = data (self w).
Proof.
  rewrite process_eq. destruct (data (self w)) eqn:Hl; [done |].
  destruct (summary _); [exact Hl |].
  by destruct (median _).
Qed.

Lemma process_final_name w : name (self (final (process w))) = name (self w).
Proof.
  rewrite process_eq. destruct (data (self w)); [done |].
  destruct (summary _); [done |]. by destruct (median _).
Qed.

(** An object whose data are empty has never been processed: the flag is
    false and nothing is cached.  The list only grows, so this holds
    whoever else extends it. *)
Lemma reachable_invariant w :
  reachable w →
  data (self w) = [] → processed (self w) = false ∧ _stats (self w) = None.
Proof.
  induction 1 as [l n out | c w Hw IH]; [done |].
  destruct c as [| | v]; cbn [run].
  - rewrite process_eq. destruct (data (self w)) as [| x t] eqn:Hl.
    { cbn [final self]. by rewrite Hl. }
    destruct (summary (x :: t)) as [e | d] eqn:Hs.
    { cbn [final]. by rewrite Hl. }
    by destruct (median (x :: t)) as [e | m] eqn:Hm.
  - by rewrite get_statistics_final.
  - rewrite add_data_eq. destruct (as_list v) as [l |]; [| done].
    cbn [final self data processed _stats].
    intros [Hd _]%app_eq_nil. split; [done |]. by apply IH.
Qed.

(** Calls other than [process] never set the flag. *)
Lemma run_keeps_flag_clear c w :
  c ≠ CallProcess → processed (self w) = false →
  processed (self (run c w)) = false.
Proof.
  intros Hc Hp. destruct c as [| | v]; [done | |]; cbn [run].
  - by rewrite get_statistics_final.
  - rewrite add_data_eq. by destruct (as_list v).
Qed.

Lemma run_all_keeps_flag_clear cs w :
  Forall (λ c, c ≠ CallProcess) cs → processed (self w) = false →
  processed (self (run_all cs w)) = false.
Proof.
  unfold run_all. intros Hcs. revert w.
  induction Hcs as [| c cs Hc _ IH]; intros w Hp; cbn [fold_left]; [done |].
  apply IH. by apply run_keeps_flag_clear.
Qed.

End method_facts.

(** ** Successful runs of [process] *)

Section snapshot_facts.

Lemma within_mono B B' l : B <= B' → within B l → within B' l.
Proof.
  intros HB Hl. unfold within in *. eapply Forall_impl; [exact Hl |].
  intros v Hv. cbn beta in Hv. lia.
Qed.

Lemma within_sorted B l : within B l → within B (sorted l).
Proof. unfold within. by rewrite sorted_Permutation. Qed.

Lemma within_lookup B (l : list Z) i a :
  within B l → l !! i = Some a → Z.abs a <= B.
Proof.
  unfold within. rewrite Forall_forall. intros H Hi.
  apply H. by eapply list_elem_of_lookup_2.
Qed.

Lemma median_in_range l :
  l ≠ [] → within (2 ^ 1023) l → ∃ m, median l = inr m.
Proof.
  intros Hl Hb. destruct (Z.eq_dec (len l mod 2) 0) as [Hn | Hn].
  - destruct (median_even l Hl Hn) as (a & b & Ha & Hb' & _ & ->).
    apply within_sorted in Hb.
    pose proof (within_lookup _ _ _ _ Hb Ha).
    pose proof (within_lookup _ _ _ _ Hb Hb').
    destruct (int_true_divide_in_range (a + b) 2) as [f Hf]; [done | |].
    { change (Z.abs 2) with 2. lia. }
    unfold true_div. rewrite Hf. eauto.
  - destruct (median_odd l Hl Hn) as (a & _ & ->). eauto.
Qed.

Lemma snapshot_in_range l :
  l ≠ [] → within (2 ^ 1023) l → ∃ d, snapshot l = inr d.
Proof.
  intros Hl Hb.
  destruct (summary_in_range l Hl Hb) as (f & lo & hi & _ & _ & _ & Hs).
  destruct (median_in_range l Hl Hb) as [m Hm].
  unfold snapshot. rewrite Hs, Hm. eauto.
Qed.

Lemma process_snapshot w d :
  data (self w) ≠ [] → snapshot (data (self w)) = inr d →
  process w = Returns true (after_process w d).
Proof.
  intros Hl. rewrite process_eq. unfold snapshot.
  destruct (data (self w)) as [| x t] eqn:Hd; [done |].
  destruct (summary (x :: t)) as [e | d']; [done |].
  destruct (median (x :: t)) as [e | m]; [done |].
  intros [= <-]. unfold after_process. by rewrite Hd.
Qed.

(** The six entries of a complete dictionary. *)
Lemma snapshot_lookups l d :
  snapshot l = inr d →
  ∃ f lo hi m,
    true_div (sum l) (len l) = inr f ∧ py_min l = inr lo ∧
    py_max l = inr hi ∧ median l = inr m ∧
    d !! "count" = Some (VInt (len l)) ∧ d !! "sum" = Some (VInt (sum l)) ∧
    d !! "mean" = Some (VFloat f) ∧ d !! "min" = Some (VInt lo) ∧
    d !! "max" = Some (VInt hi) ∧ d !! "median" = Some m.
Proof.
  unfold snapshot, summary.
  destruct (true_div (sum l) (len l)) as [e | f]; [done |].
  destruct (py_min l) as [e | lo]; [done |].
  destruct (py_max l) as [e | hi]; [done |].
  destruct (median l) as [e | m]; [done |].
  intros [= <-]. exists f, lo, hi, m.
  split_and!; try done;
    repeat (rewrite lookup_insert_ne by done); by rewrite lookup_insert_eq.
Qed.

(** Comparing an int with the exact half of an int. *)
Lemma py_le_int_half z c f :
  (F2Q f == c # 2)%Q → 2 * z <= c → py_le (VInt z) (VFloat f) = Some true.
Proof.
  intros Hf Hz. unfold py_le. cbn [num_value]. f_equal.
  apply Qle_bool_iff. rewrite Hf. unfold Qle. cbn [inject_Z Qnum Qden]. lia.
Qed.

Lemma py_le_half_int z c f :
  (F2Q f == c # 2)%Q → c <= 2 * z → py_le (VFloat f) (VInt z) = Some true.
Proof.
  intros Hf Hz. unfold py_le. cbn [num_value]. f_equal.
  apply Qle_bool_iff. rewrite Hf. unfold Qle. cbn [inject_Z Qnum Qden]. lia.
Qed.

Lemma py_le_int_int y z : y <= z → py_le (VInt y) (VInt z) = Some true.
Proof.
  intros Hz. unfold py_le. cbn [num_value]. f_equal.
  apply Qle_bool_iff. unfold Qle. cbn [inject_Z Qnum Qden]. lia.
Qed.


End snapshot_facts.

(** ** Objects on shared lists *)

Section shared_facts.

Import Shared.

(** A call keeps a set flag honest: if the flag implied a current
    dictionary before, it does so after. *)
Lemma run_preserves_fresh c w :
  (processed (self w) = true → fresh (self w)) →
  processed (self (run c w)) = true → fresh (self (run c w)).
Proof.
  intros IH. destruct c as [| | v]; cbn [run].
  - rewrite process_eq. destruct (data (self w)) as [| x t] eqn:Hl; [done |].
    destruct (summary (x :: t)) as [e | d] eqn:Hs; [done |].
    destruct (median (x :: t)) as [e | m] eqn:Hm; cbn [final self processed].
    + intros Hp. destruct (IH Hp) as (d' & _ & Hsnap).
      unfold snapshot in Hsnap. by rewrite Hl, Hs, Hm in Hsnap.
    + intros _. eexists. split; [done |].
      cbn [data]. unfold snapshot. by rewrite Hs, Hm.
  - by rewrite get_statistics_final.
  - rewrite add_data_eq. by destruct (as_list v).
Qed.

Lemma store_refs h o ob w :
  objects h !! o = Some ob →
  data_ref <$> objects (store h o ob w) = data_ref <$> objects h.
Proof.
  intros Ho. unfold store. cbn [objects].
  rewrite list_fmap_insert. cbn [data_ref].
  apply list_insert_id. by rewrite list_lookup_fmap, Ho.
Qed.

Lemma step_refs_prefix a h :
  data_ref <$> objects h `prefix_of` data_ref <$> objects (step a h).
Proof.
  destruct a as [l | r n | o c]; cbn [step objects]; [done | |].
  - case_decide; [| done]. cbn [objects]. rewrite fmap_app. by apply prefix_app_r.
  - destruct (objects h !! o) as [ob |] eqn:Ho; [| done].
    destruct (view h ob) as [w |]; [| done]. by rewrite store_refs.
Qed.

(** Being the only holder now means having been the only holder before. *)
Lemma sole_holder_step a h o :
  (o < length (objects h))%nat →
  sole_holder (step a h) o → sole_holder h o.
Proof.
  intros Ho Hsole o' r H1 H2. apply (Hsole o' r).
  - by eapply prefix_lookup_Some; [| apply step_refs_prefix].
  - by eapply prefix_lookup_Some; [| apply step_refs_prefix].
Qed.

(** Every object refers to a list of the heap. *)
Lemma reachable_refs h o ob :
  Shared.reachable h → objects h !! o = Some ob →
  (data_ref ob < length (lists h))%nat.
Proof.
  intros Hh. revert o ob.
  induction Hh as [out | a h Hh IH]; intros o ob; [done |].
  destruct a as [l | r n | o1 c]; cbn [step].
  - cbn [objects lists]. intros Ho%IH. rewrite length_app. lia.
  - case_decide as Hr; [| apply IH]. cbn [objects lists].
    intros [Ho | [_ Ho]]%lookup_app_Some; [by eapply IH |].
    apply list_lookup_singleton_Some in Ho as [_ <-]. done.
  - destruct (objects h !! o1) as [ob1 |] eqn:Ho1; [| apply IH].
    destruct (view h ob1) as [w |]; [| apply IH].
    unfold store. cbn [objects lists]. rewrite length_insert.
    destruct (decide (o = o1)) as [-> | Hne].
    + rewrite list_lookup_insert_eq by by eapply lookup_lt_Some.
      intros [= <-]. cbn [data_ref]. by eapply IH.
    + rewrite list_lookup_insert_ne by done. apply IH.
Qed.

(** In every reachable heap, an object that is the only holder of its list
    and has its flag set caches the complete dictionary of the current
    content of that list. *)
Lemma reachable_sole_holder_fresh h o ob :
  Shared.reachable h → objects h !! o = Some ob → sole_holder h o →
  obj_processed ob = true →
  ∃ l d, lists h !! data_ref ob = Some l ∧ obj_stats ob = Some d
         ∧ snapshot l = inr d.
Proof.
  intros Hh. revert o ob.
  induction Hh as [out | a h Hh IH]; intros o ob; [done |].
  destruct a as [l | r n | o1 c].
  - intros Ho Hsole Hp.
    destruct (IH o ob Ho) as (l' & d & Hl & Hd & Hs); [| done |].
    { apply (sole_holder_step (NewList l)); [by eapply lookup_lt_Some | done]. }
    exists l', d. split; [| done]. cbn [step lists]. by apply lookup_app_l_Some.
  - intros Ho Hsole Hp. cbn [step] in Ho. case_decide as Hr.
    + cbn [objects] in Ho.
      apply lookup_app_Some in Ho as [Ho | [_ Ho]].
      * destruct (IH o ob Ho) as (l' & d & Hl & Hd & Hs); [| done |].
        { apply (sole_holder_step (NewAnalyzer r n));
            [by eapply lookup_lt_Some | done]. }
        exists l', d. cbn [step]. by rewrite decide_True.
      * apply list_lookup_singleton_Some in Ho as [_ <-]. done.
    + destruct (IH o ob Ho) as (l' & d & Hl & Hd & Hs); [| done |].
      { apply (sole_holder_step (NewAnalyzer r n));
          [by eapply lookup_lt_Some | done]. }
      exists l', d. cbn [step]. by rewrite decide_False.
  - cbn [step]. destruct (objects h !! o1) as [ob1 |] eqn:Ho1; [| apply IH].
    unfold view. destruct (lists h !! data_ref ob1) as [l1 |] eqn:Hl1; [| apply IH].
    set (w := World _ _). intros Ho Hsole Hp.
    assert (Hold : ∀ x, (x < length (objects h))%nat →
                        sole_holder (store h o1 ob1 (run c w)) x →
                        sole_holder h x).
    { intros x Hx Hs. pose proof (sole_holder_step (Method o1 c) h x Hx) as Hstep.
      cbn [step] in Hstep. unfold view in Hstep. rewrite Ho1, Hl1 in Hstep.
      by apply Hstep. }
    unfold store in Ho. cbn [objects lists] in *.
    destruct (decide (o = o1)) as [-> | Hne].
    + rewrite list_lookup_insert_eq in Ho by by eapply lookup_lt_Some.
      injection Ho as <-. cbn [data_ref obj_processed obj_stats] in *.
      destruct (run_preserves_fresh c w) as (d & Hd & Hs); [| done |].
      { intros Hp1. destruct (IH o1 ob1 Ho1) as (l' & d & Hl & Hd & Hs);
          [| done |].
        { apply Hold; [by eapply lookup_lt_Some | done]. }
        rewrite Hl1 in Hl. injection Hl as <-. by exists d. }
      exists (data (self (run c w))), d. split; [| done].
      unfold store. cbn [lists].
      apply list_lookup_insert_eq. by eapply lookup_lt_Some.
    + rewrite list_lookup_insert_ne in Ho by done.
      assert (sole_holder h o) as Hsole'.
      { apply Hold; [by eapply lookup_lt_Some | done]. }
      destruct (IH o ob Ho Hsole' Hp) as (l' & d & Hl & Hd & Hs).
      exists l', d. split; [| done].
      unfold store. cbn [lists].
      rewrite list_lookup_insert_ne; [done |].
      intros Href. apply Hne. symmetry. apply (Hsole' o1 (data_ref ob)).
      * by rewrite list_lookup_fmap, Ho.
      * rewrite list_lookup_fmap, Ho1. cbn [fmap option_fmap option_map].
        by rewrite Href.
Qed.

End shared_facts.

(** ** The cache and its flag *)




(** ** Success and failure of [process] *)

(** C2 does not hold as stated: on the one-element dataset [[2^1024]] the
    mean [sum / len] does not fit a float, [process] raises [OverflowError],
    returns nothing and stores nothing. *)
Lemma C2_overflow_on_nonempty :
  let w := World (__init__ [2 ^ 1024] default_name) [] in
  process w = Raises OverflowError w.
Proof. vm_compute. reflexivity. Qed.

(** C2, amended: in every reachable world, [process] on an empty dataset
    prints the diagnostic, returns [False] and leaves the object as it was,
    with [processed] false and no dictionary stored; on a non-empty dataset
    of ints of magnitude at most [2^1023] it returns [True], sets [processed]
    and stores a dictionary whose count is the length of the data; it returns
    [False] for the empty dataset only; on any non-empty dataset it either
    returns [True] or raises [OverflowError]. *)
Theorem C2_process_fails_on_empty_only w :
  reachable w →
  (data (self w) = [] →
     process w = Returns false (World (self w) (stdout w ++ [no_data_msg]))
     ∧ processed (self w) = false ∧ _stats (self w) = None)
  ∧ (data (self w) ≠ [] → within (2 ^ 1023) (data (self w)) →
     ∃ d, process w = Returns true (after_process w d)
          ∧ d !! "count" = Some (VInt (len (data (self w)))))
  ∧ (∀ w', process w = Returns false w' → data (self w) = [])
  ∧ (data (self w) ≠ [] →
     (∃ w', process w = Returns true w')
     ∨ (∃ w', process w = Raises OverflowError w')).
Proof.
  intros Hw. split_and!.
  - intros Hl. split; [by rewrite process_eq, Hl |].
    by apply reachable_invariant.
  - intros Hl Hb. destruct (snapshot_in_range _ Hl Hb) as [d Hd].
    exists d. split; [by apply process_snapshot |].
    by destruct (snapshot_lookups _ _ Hd) as (f & lo & hi & m & _ & _ & _ & _ & ? & _).
  - intros w'. rewrite process_eq.
    destruct (data (self w)) as [| x t]; [done |].
    destruct (summary (x :: t)); [done |]. by destruct (median (x :: t)).
  - intros Hl. rewrite process_eq.
    destruct (data (self w)) as [| x t]; [done |].
    destruct (summary (x :: t)) as [e | d] eqn:Hs.
    { apply summary_error in Hs as ->; eauto. }
    destruct (median (x :: t)) as [e | m] eqn:Hm; [| eauto].
    apply median_error in Hm as ->; eauto.
Qed.

Lemma C2_process_fails_on_empty_only_witness :
  let w := World (__init__ sample_data "Sample Dataset") [] in
  let w' := World (__init__ [] default_name) [] in
  (∃ d, process w = Returns true (after_process w d)
        ∧ d !! "count" = Some (VInt 8))
  ∧ process w' = Returns false (World (self w') [no_data_msg]).
Proof.
  cbv zeta. split.
  - apply (C2_process_fails_on_empty_only _ (reachable_new sample_data "Sample Dataset" [])).
    + discriminate.
    + unfold within. repeat constructor; vm_compute; discriminate.
  - apply (C2_process_fails_on_empty_only _ (reachable_new [] default_name [])).
    reflexivity.
Defined.

(** ** The median *)

(** C3 does not hold as stated: for [[2^53 + 1, 2^53 + 1]] the two middle
    elements of the sorted copy are both [2^53 + 1], and the stored median is
    the float [2^53], not their average [2^53 + 1]. *)
Lemma C3_median_is_rounded :
  let w := World (__init__ [2 ^ 53 + 1; 2 ^ 53 + 1] default_name) [] in
  let f := Float false (2 ^ 52) 1 in
  sorted [2 ^ 53 + 1; 2 ^ 53 + 1] = [2 ^ 53 + 1; 2 ^ 53 + 1]
  ∧ (∃ d, process w = Returns true (after_process w d)
          ∧ d !! "median" = Some (VFloat f))
  ∧ (F2Q f == inject_Z (2 ^ 53))%Q
  ∧ ¬ (F2Q f == (2 ^ 53 + 1 + (2 ^ 53 + 1)) # 2)%Q.
Proof.
  cbv zeta. split_and!.
  - vm_compute. reflexivity.
  - eexists. split; vm_compute; reflexivity.
  - vm_compute. reflexivity.
  - vm_compute. discriminate.
Qed.

(** C3, amended: for every non-empty dataset of ints of magnitude at most
    [2^1023], [process] succeeds and leaves the data as they were; with [s]
    the ascending rearrangement of the data and [n] their number, for even
    [n] the median is the float Python's [(s[n/2 - 1] + s[n/2]) / 2] returns,
    which is the average itself when the magnitude of the sum is at most
    [2^53]; for odd [n] it is the int [s[n/2]]. *)
Theorem C3_median_of_sorted_copy w s :
  data (self w) ≠ [] → within (2 ^ 1023) (data (self w)) →
  Sorted Z.le s → s ≡ₚ data (self w) →
  let n := len (data (self w)) in
  ∃ d,
    process w = Returns true (after_process w d) ∧
    if n mod 2 =? 0 then
      ∃ a b f,
        s !! Z.to_nat (n / 2 - 1) = Some a ∧ s !! Z.to_nat (n / 2) = Some b ∧
        true_div (a + b) 2 = inr f ∧ d !! "median" = Some (VFloat f) ∧
        (Z.abs (a + b) <= 2 ^ 53 → (F2Q f == (a + b) # 2)%Q)
    else
      ∃ a, s !! Z.to_nat (n / 2) = Some a ∧ d !! "median" = Some (VInt a).
Proof.
  intros Hl Hb Hs Hp. cbv zeta.
  apply sorted_unique in Hp as <-; [| done].
  destruct (snapshot_in_range _ Hl Hb) as [d Hd].
  exists d. split; [by apply process_snapshot |].
  destruct (snapshot_lookups _ _ Hd) as (_ & _ & _ & m & _ & _ & _ & Hm & _ & _ & _ & _ & _ & Hmed).
  destruct (Z.eqb_spec (len (data (self w)) mod 2) 0) as [Hn | Hn].
  - destruct (median_even _ Hl Hn) as (a & b & Ha & Hb' & _ & Hm').
    rewrite Hm' in Hm.
    destruct (true_div (a + b) 2) as [e | f] eqn:Hdiv; [done |].
    injection Hm as <-. exists a, b, f. split_and!; try done.
    intros Hab. destruct (int_true_divide_half _ Hab) as (f' & Hf' & Hq).
    unfold true_div in Hdiv. rewrite Hf' in Hdiv. by injection Hdiv as <-.
  - destruct (median_odd _ Hl Hn) as (a & Ha & Hm').
    rewrite Hm' in Hm. injection Hm as <-. by exists a.
Qed.

Lemma C3_median_of_sorted_copy_witness :
  let w := World (__init__ sample_data "Sample Dataset") [] in
  let w' := World (__init__ [1; 2; 9] default_name) [] in
  (∃ d f, process w = Returns true (after_process w d)
          ∧ d !! "median" = Some (VFloat f) ∧ (F2Q f == 28.5)%Q)
  ∧ (∃ d, process w' = Returns true (after_process w' d)
          ∧ d !! "median" = Some (VInt 2)).
Proof.
  cbv zeta. split.
  - destruct (C3_median_of_sorted_copy
                (World (__init__ sample_data "Sample Dataset") [])
                [12; 15; 21; 23; 34; 45; 67; 89])
      as (d & Hp & a & b & f & Ha & Hb & _ & Hm & Hq).
    + discriminate.
    + unfold within. repeat constructor; vm_compute; discriminate.
    + repeat constructor; vm_compute; discriminate.
    + change [12; 15; 21; 23; 34; 45; 67; 89] with (sorted sample_data).
      apply sorted_Permutation.
    + injection Ha as <-. injection Hb as <-.
      exists d, f. split_and!; [done .. |].
      rewrite Hq; [reflexivity | vm_compute; discriminate].
  - destruct (C3_median_of_sorted_copy
                (World (__init__ [1; 2; 9] default_name) []) [1; 2; 9])
      as (d & Hp & a & Ha & Hm).
    + discriminate.
    + unfold within. repeat constructor; vm_compute; discriminate.
    + repeat constructor; vm_compute; discriminate.
    + reflexivity.
    + injection Ha as <-. by exists d.
Defined.




(** ** Reading the cache *)

(** C5: [get_statistics] returns [None] and prints the diagnostic whenever
    [processed] is false, and returns the stored dictionary, printing
    nothing, when it is true.  The flag is false on a new object and after
    every accepted [add_data], the empty list included, and stays false
    through any calls other than [process]; for an object of a reachable
    heap that is the only holder of its list and has the flag set, the
    dictionary returned is the complete one of the current data. *)
Theorem C5_get_statistics_needs_process w :
  (processed (self w) = false →
     get_statistics w =
       Returns None (World (self w) (stdout w ++ [not_processed_msg])))
  ∧ (processed (self w) = true → get_statistics w = Returns (_stats (self w)) w)
  ∧ (∀ l n out cs, Forall (λ c, c ≠ CallProcess) cs →
       processed (self (run_all cs (World (__init__ l n) out))) = false)
  ∧ (∀ l cs, Forall (λ c, c ≠ CallProcess) cs →
       processed (self (run_all cs (final (add_data (VList l) w)))) = false)
  ∧ (∀ h o ob,
       Shared.reachable h → Shared.objects h !! o = Some ob →
       Shared.view h ob = Some w → Shared.sole_holder h o →
       processed (self w) = true →
       ∃ d, get_statistics w = Returns (Some d) w
            ∧ snapshot (data (self w)) = inr d).
Proof.
  split_and!.
  - intros Hp. by rewrite get_statistics_eq, Hp.
  - intros Hp. by rewrite get_statistics_eq, Hp.
  - intros l n out cs Hcs. by apply run_all_keeps_flag_clear.
  - intros l cs Hcs. apply run_all_keeps_flag_clear; [done |].
    by rewrite add_data_eq.
  - intros h o ob Hh Ho Hv Hsole Hp. unfold Shared.view in Hv.
    destruct (Shared.lists h !! Shared.data_ref ob) as [l |] eqn:Hl; [| done].
    injection Hv as <-. cbn [self processed data] in *.
    destruct (reachable_sole_holder_fresh h o ob Hh Ho Hsole Hp)
      as (l' & d & Hl' & Hd & Hs).
    rewrite Hl in Hl'. injection Hl' as <-.
    exists d. rewrite get_statistics_eq. cbn [self processed _stats].
    by rewrite Hp, Hd.
Qed.

Lemma C5_get_statistics_needs_process_witness :
  let w := run CallProcess (World (__init__ [1; 2; 9] default_name) []) in
  let w' := run_all [CallGetStatistics; CallAddData (VInt 42)]
              (final (add_data (VList []) w)) in
  get_statistics w = Returns (_stats (self w)) w
  ∧ get_statistics w' =
      Returns None (World (self w') (stdout w' ++ [not_processed_msg])).
Proof.
  cbv zeta. split.
  - apply (C5_get_statistics_needs_process
             (run CallProcess (World (__init__ [1; 2; 9] default_name) []))).
    vm_compute. reflexivity.
  - apply C5_get_statistics_needs_process.
    apply (C5_get_statistics_needs_process
             (run CallProcess (World (__init__ [1; 2; 9] default_name) []))).
    repeat constructor; discriminate.
Defined.

(** ** Adding data *)

(** C6: for every argument that is not a sequence, [add_data] prints the
    diagnostic and returns [False]; the object (data, name, flag and cached
    dictionary) is exactly as before. *)
Theorem C6_add_data_rejects_non_sequence v w :
  is_sequence v = false →
  add_data v w = Returns false (World (self w) (stdout w ++ [not_a_list_msg])).
Proof.
  intros Hv. apply add_data_rejects. by destruct v.
Qed.

Lemma C6_add_data_rejects_non_sequence_witness :
  let w := run CallProcess (World (__init__ sample_data "Sample Dataset") []) in
  add_data (VInt 42) w = Returns false (World (self w) [not_a_list_msg]).
Proof.
  cbv zeta.
  apply (C6_add_data_rejects_non_sequence (VInt 42)
           (run CallProcess (World (__init__ sample_data "Sample Dataset") []))).
  reflexivity.
Defined.

(** C7: for every list argument, [add_data] returns [True]; the data are the
    old data followed by the elements of the argument in their order, the
    flag is false, and nothing else changes. *)
Theorem C7_add_data_appends l w :
  add_data (VList l) w =
  Returns true
    (World {| data := data (self w) ++ l; name := name (self w);
              processed := false; _stats := _stats (self w) |} (stdout w)).
Proof. by rewrite add_data_eq. Qed.

(** C10: for every argument that is not a list, tuples and ranges included,
    [add_data] prints the diagnostic and returns [False]; the object is
    exactly as before. *)
Theorem C10_add_data_accepts_lists_only v w :
  (∀ l, v ≠ VList l) →
  add_data v w = Returns false (World (self w) (stdout w ++ [not_a_list_msg])).
Proof.
  intros Hv. apply add_data_rejects.
  destruct v; try done. by destruct (Hv l).
Qed.

Lemma C10_add_data_accepts_lists_only_witness :
  let w := World (__init__ [1] default_name) [] in
  add_data (VTuple [2; 3]) w = Returns false (World (self w) [not_a_list_msg])
  ∧ add_data (VRange 0 3 1) w = Returns false (World (self w) [not_a_list_msg]).
Proof.
  cbv zeta.
  split; apply (C10_add_data_accepts_lists_only _ (World (__init__ [1] default_name) []));
    discriminate.
Defined.

(** ** Running [process] again *)

(** C8: from every state, a second [process] right after the first leaves
    the object as the first left it, with the same dictionary, and ends as
    the first did: the same return value, or the same exception. *)
Theorem C8_process_idempotent w :
  let once := process w in
  let twice := process (final once) in
  self (final twice) = self (final once)
  ∧ _stats (self (final twice)) = _stats (self (final once))
  ∧ match once, twice with
    | Returns r1 _, Returns r2 _ => r1 = r2
    | Raises e1 _, Raises e2 _ => e1 = e2
    | _, _ => False
    end.
Proof.
  cbv zeta.
  assert (self (final (process (final (process w)))) = self (final (process w))
          ∧ match process w, process (final (process w)) with
            | Returns r1 _, Returns r2 _ => r1 = r2
            | Raises e1 _, Raises e2 _ => e1 = e2
            | _, _ => False
            end) as [Hself Hres].
  { rewrite (process_eq w).
    destruct (data (self w)) as [| x t] eqn:Hl.
    { rewrite process_eq. cbn [final self stdout]. by rewrite Hl. }
    destruct (summary (x :: t)) as [e | d] eqn:Hs.
    { rewrite process_eq. cbn [final]. by rewrite Hl, Hs. }
    destruct (median (x :: t)) as [e | m] eqn:Hm;
      rewrite process_eq; cbn [final self data name stdout processed _stats];
      by rewrite Hs, Hm. }
  split; [done |]. split; [by rewrite Hself | done].
Qed.

(** C9: from every state, [process] leaves the data, in content and order,
    and the name as they were; it prints the diagnostic when the data are
    empty and nothing otherwise. *)
Theorem C9_process_frame w :
  let w' := final (process w) in
  data (self w') = data (self w)
  ∧ name (self w') = name (self w)
  ∧ stdout w' = (if truthy (data (self w)) then stdout w
                 else stdout w ++ [no_data_msg]).
Proof.
  cbv zeta. split; [apply process_final_data |].
  split; [apply process_final_name |].
  rewrite process_eq. destruct (data (self w)) as [| x t]; [done |].
  destruct (summary (x :: t)); [done |]. by destruct (median (x :: t)).
Qed.

(** ** More on the division: exact quotients and bounds *)

Section division_bounds.

Lemma round_half_even_le num den B :
  0 < den → num <= B * den → round_half_even num den <= B.
Proof.
  intros Hden Hnum. destruct (Z.eq_dec num (B * den)) as [-> | Hne].
  - by rewrite round_half_even_exact.
  - apply round_half_even_upper; lia.
Qed.

(** Quotients of magnitude up to [2^52] are rounded on a grid that holds
    every int. *)
Lemma quot_exponent_small x y :
  0 < x → 0 < y → x <= 2 ^ 52 * y → quot_exponent x y <= 0.
Proof.
  intros Hx Hy Hxy.
  assert (floor_log2_quot x y <= 52).
  { apply floor_log2_quot_le; [done .. | | lia].
    change (2 ^ (52 + 1)) with (2 * 2 ^ 52). lia. }
  unfold quot_exponent, prec, emin. lia.
Qed.

Lemma quot_mantissa_between x y lo hi :
  0 < y → quot_exponent x y <= 0 → lo * y <= x <= hi * y →
  lo * 2 ^ (- quot_exponent x y) <= quot_mantissa x y (quot_exponent x y)
    <= hi * 2 ^ (- quot_exponent x y).
Proof.
  intros Hy He [Hlo Hhi]. set (e := quot_exponent x y) in *.
  unfold quot_mantissa.
  rewrite (pow2_of_nonpos e), (pow2_of_nonneg (- e)), Z.mul_1_r by lia.
  assert (0 < 2 ^ (- e)) as Hp by (apply Z.pow_pos_nonneg; lia).
  split.
  - apply round_half_even_lower; [done | nia].
  - apply round_half_even_le; [done | nia].
Qed.

(** The value of a renormalized mantissa is the value before. *)
Lemma renormalize_value m e :
  let '(m', e') := renormalize m e in
  m' * pow2 e' * pow2 (- e) = m * pow2 e * pow2 (- e').
Proof.
  unfold renormalize, prec.
  destruct (Z.eqb_spec m (2 ^ 53)) as [-> | _]; [| done].
  change (2 ^ 53) with (2 ^ (53 - 1) * 2).
  destruct (Z.le_gt_cases 0 e) as [He | He].
  - rewrite (pow2_of_nonneg (e + 1)), (pow2_of_nonneg e) by lia.
    rewrite (pow2_of_nonpos (- e)), (pow2_of_nonpos (- (e + 1))) by lia.
    rewrite Z.pow_add_r by lia. change (2 ^ 1) with 2. lia.
  - rewrite (pow2_of_nonpos (e + 1)), (pow2_of_nonpos e) by lia.
    rewrite (pow2_of_nonneg (- e)), (pow2_of_nonneg (- (e + 1))) by lia.
    replace (- e) with (- (e + 1) + 1) by lia.
    rewrite Z.pow_add_r by lia. change (2 ^ 1) with 2. lia.
Qed.

Lemma renormalize_exponent m e :
  e <= (renormalize m e).2 <= e + 1.
Proof.
  unfold renormalize. destruct (m =? 2 ^ prec); cbn [snd]; lia.
Qed.

(** A float against an int, as an inequality of integers. *)
Lemma F2Q_le_int s m e z :
  (F2Q (Float s m e) <= inject_Z z)%Q
  ↔ (if s then - m else m) * pow2 e <= z * pow2 (- e).
Proof.
  unfold F2Q, signed_mant, Qle. cbn [fsign fmant fexpo inject_Z Qnum Qden].
  rewrite Z2Pos.id by apply pow2_pos. lia.
Qed.

Lemma int_le_F2Q s m e z :
  (inject_Z z <= F2Q (Float s m e))%Q
  ↔ z * pow2 (- e) <= (if s then - m else m) * pow2 e.
Proof.
  unfold F2Q, signed_mant, Qle. cbn [fsign fmant fexpo inject_Z Qnum Qden].
  rewrite Z2Pos.id by apply pow2_pos. lia.
Qed.

(** The quotient of [x > 0] by [y > 0], before the sign is applied, lies
    between any two ints of magnitude up to [2^52] that bound [x / y]. *)
Lemma quotient_between x y lo hi :
  0 < x → 0 < y → lo * y <= x <= hi * y → hi <= 2 ^ 52 →
  let '(m, e) := renormalize (quot_mantissa x y (quot_exponent x y))
                   (quot_exponent x y) in
  e <= emax ∧ lo * pow2 (- e) <= m * pow2 e <= hi * pow2 (- e).
Proof.
  intros Hx Hy Hb Hhi.
  assert (quot_exponent x y <= 0) as He.
  { apply quot_exponent_small; [done .. |]. nia. }
  pose proof (quot_mantissa_between x y lo hi Hy He Hb) as Hm.
  pose proof (renormalize_value (quot_mantissa x y (quot_exponent x y))
                (quot_exponent x y)) as Hv.
  pose proof (renormalize_exponent (quot_mantissa x y (quot_exponent x y))
                (quot_exponent x y)) as Hre.
  set (e := quot_exponent x y) in *. set (m := quot_mantissa x y e) in *.
  destruct (renormalize m e) as [m' e']. cbn [snd] in Hre.
  rewrite (pow2_of_nonpos e), (pow2_of_nonneg (- e)) in Hv by lia.
  assert (0 < 2 ^ (- e)) as Hp by (apply Z.pow_pos_nonneg; lia).
  pose proof (pow2_pos (- e')) as Hp'.
  split; [unfold emax; lia |]. split.
  - apply (Z.mul_le_mono_pos_r _ _ (2 ^ (- e))); [done |]. rewrite Hv. nia.
  - apply (Z.mul_le_mono_pos_r _ _ (2 ^ (- e))); [done |]. rewrite Hv. nia.
Qed.

(** [a / b] lies between any two ints of magnitude up to [2^52] that bound
    the exact quotient. *)
Lemma int_true_divide_between a b lo hi :
  0 < b → lo * b <= a <= hi * b → - 2 ^ 52 <= lo → hi <= 2 ^ 52 →
  ∃ f, int_true_divide a b = inr f
       ∧ (inject_Z lo <= F2Q f)%Q ∧ (F2Q f <= inject_Z hi)%Q.
Proof.
  intros Hb Hab Hlo Hhi. unfold int_true_divide.
  destruct (Z.eqb_spec b 0) as [| _]; [lia |].
  destruct (Z.ltb_spec b 0) as [| _]; [lia |].
  rewrite xorb_false_r, (Z.abs_eq b) by lia.
  destruct (Z.eqb_spec a 0) as [-> | Ha].
  { eexists. split; [done |].
    rewrite int_le_F2Q, F2Q_le_int. cbn [Z.ltb Z.compare].
    pose proof (pow2_pos (- emin)). nia. }
  destruct (Z.ltb_spec a 0) as [Hneg | Hpos].
  - pose proof (quotient_between (Z.abs a) b (- hi) (- lo)) as Hq.
    destruct (renormalize _ _) as [m e].
    destruct Hq as (He & Hm1 & Hm2); [lia .. |].
    destruct (Z.ltb_spec emax e) as [| _]; [lia |].
    eexists. split; [done |]. rewrite int_le_F2Q, F2Q_le_int. lia.
  - pose proof (quotient_between (Z.abs a) b lo hi) as Hq.
    destruct (renormalize _ _) as [m e].
    destruct Hq as (He & Hm1 & Hm2); [lia .. |].
    destruct (Z.ltb_spec emax e) as [| _]; [lia |].
    eexists. split; [done |]. rewrite int_le_F2Q, F2Q_le_int. lia.
Qed.



End division_bounds.

(** ** The builtins under append and rearrangement *)

Section builtin_algebra.

Lemma len_app {A} (l1 l2 : list A) : len (l1 ++ l2) = len l1 + len l2.
Proof. unfold len. rewrite length_app. lia. Qed.

Lemma fold_add_acc (l : list Z) acc :
  fold_left Z.add l acc = acc + fold_left Z.add l 0.
Proof.
  revert acc. induction l as [| v l IH]; intros acc; cbn [fold_left]; [lia |].
  rewrite (IH (acc + v)), (IH (0 + v)). lia.
Qed.

Lemma sum_cons v l : sum (v :: l) = v + sum l.
Proof. unfold sum. cbn [fold_left]. by rewrite fold_add_acc. Qed.

Lemma sum_app l1 l2 : sum (l1 ++ l2) = sum l1 + sum l2.
Proof.
  induction l1 as [| v l1 IH]; [done |].
  rewrite <- app_comm_cons, !sum_cons, IH. lia.
Qed.

Lemma sum_Permutation l1 l2 : l1 ≡ₚ l2 → sum l1 = sum l2.
Proof.
  induction 1 as [| v l1 l2 _ IH | u v l | l1 l2 l3 _ IH1 _ IH2];
    rewrite ?sum_cons; lia.
Qed.

Lemma sum_between lo hi l :
  Forall (λ v, lo <= v <= hi) l → lo * len l <= sum l <= hi * len l.
Proof.
  induction 1 as [| v l Hv _ IH]; [unfold len, sum; cbn; lia |].
  rewrite sum_cons. unfold len in *. cbn [length]. lia.
Qed.

(** A least element of a list is what [min] returns. *)
Lemma py_min_unique l m :
  m ∈ l → Forall (λ v, m <= v) l → py_min l = inr m.
Proof.
  intros Hin Hle.
  destruct (py_min_spec l) as (m' & -> & Hin' & Hle').
  { intros ->. by apply elem_of_nil in Hin. }
  rewrite Forall_forall in Hle, Hle'.
  specialize (Hle _ Hin'). specialize (Hle' _ Hin). f_equal. lia.
Qed.

Lemma py_max_unique l m :
  m ∈ l → Forall (λ v, v <= m) l → py_max l = inr m.
Proof.
  intros Hin Hle.
  destruct (py_max_spec l) as (m' & -> & Hin' & Hle').
  { intros ->. by apply elem_of_nil in Hin. }
  rewrite Forall_forall in Hle, Hle'.
  specialize (Hle _ Hin'). specialize (Hle' _ Hin). f_equal. lia.
Qed.

Lemma py_min_Permutation l1 l2 : l1 ≡ₚ l2 → py_min l1 = py_min l2.
Proof.
  intros Hp. destruct l1 as [| x t].
  { by apply Permutation_nil_l in Hp as ->. }
  destruct (py_min_spec (x :: t)) as (m & -> & Hin & Hle); [done |].
  symmetry. apply py_min_unique; by rewrite <- Hp.
Qed.

Lemma py_max_Permutation l1 l2 : l1 ≡ₚ l2 → py_max l1 = py_max l2.
Proof.
  intros Hp. destruct l1 as [| x t].
  { by apply Permutation_nil_l in Hp as ->. }
  destruct (py_max_spec (x :: t)) as (m & -> & Hin & Hle); [done |].
  symmetry. apply py_max_unique; by rewrite <- Hp.
Qed.

Lemma fold_min_spec l m :
  (fold_left Z.min l m = m ∨ fold_left Z.min l m ∈ l)
  ∧ fold_left Z.min l m <= m ∧ Forall (λ v, fold_left Z.min l m <= v) l.
Proof.
  revert m. induction l as [| v l IH]; intros m; cbn [fold_left].
  { split_and!; [by left | lia | done]. }
  destruct (IH (Z.min m v)) as (Hin & Hle & Hall). split_and!.
  - destruct Hin as [-> | Hin]; [| right; by apply elem_of_cons; right].
    destruct (Z.min_spec m v) as [[_ ->] | [_ ->]]; [by left |].
    right. by apply elem_of_cons; left.
  - lia.
  - apply Forall_cons. split; [lia | done].
Qed.

Lemma fold_max_spec l m :
  (fold_left Z.max l m = m ∨ fold_left Z.max l m ∈ l)
  ∧ m <= fold_left Z.max l m ∧ Forall (λ v, v <= fold_left Z.max l m) l.
Proof.
  revert m. induction l as [| v l IH]; intros m; cbn [fold_left].
  { split_and!; [by left | lia | done]. }
  destruct (IH (Z.max m v)) as (Hin & Hle & Hall). split_and!.
  - destruct Hin as [-> | Hin]; [| right; by apply elem_of_cons; right].
    destruct (Z.max_spec m v) as [[_ ->] | [_ ->]]; [| by left].
    right. by apply elem_of_cons; left.
  - lia.
  - apply Forall_cons. split; [lia | done].
Qed.

(** [min] of an extended list: the old minimum against the new elements. *)
Lemma py_min_app l1 l2 m :
  py_min l1 = inr m → py_min (l1 ++ l2) = inr (fold_left Z.min l2 m).
Proof.
  intros Hm. destruct l1 as [| x t]; [done |].
  destruct (py_min_spec (x :: t)) as (m' & Hm' & Hin & Hle); [done |].
  rewrite Hm in Hm'. injection Hm' as <-.
  destruct (fold_min_spec l2 m) as (Hin2 & Hle2 & Hall2).
  apply py_min_unique.
  - apply elem_of_app. destruct Hin2 as [-> | Hin2]; auto.
  - apply Forall_app. split; [| done].
    eapply Forall_impl; [exact Hle |]. intros v Hv. cbn beta in Hv. lia.
Qed.

Lemma py_max_app l1 l2 m :
  py_max l1 = inr m → py_max (l1 ++ l2) = inr (fold_left Z.max l2 m).
Proof.
  intros Hm. destruct l1 as [| x t]; [done |].
  destruct (py_max_spec (x :: t)) as (m' & Hm' & Hin & Hle); [done |].
  rewrite Hm in Hm'. injection Hm' as <-.
  destruct (fold_max_spec l2 m) as (Hin2 & Hle2 & Hall2).
  apply py_max_unique.
  - apply elem_of_app. destruct Hin2 as [-> | Hin2]; auto.
  - apply Forall_app. split; [| done].
    eapply Forall_impl; [exact Hle |]. intros v Hv. cbn beta in Hv. lia.
Qed.

Lemma sorted_Permutation_eq l1 l2 : l1 ≡ₚ l2 → sorted l1 = sorted l2.
Proof.
  intros Hp. apply sorted_unique; [apply sorted_Sorted |].
  by rewrite sorted_Permutation.
Qed.

Lemma summary_Permutation l1 l2 : l1 ≡ₚ l2 → summary l1 = summary l2.
Proof.
  intros Hp. unfold summary, len.
  by rewrite (sum_Permutation _ _ Hp), (Permutation_length Hp),
    (py_min_Permutation _ _ Hp), (py_max_Permutation _ _ Hp).
Qed.

Lemma median_Permutation l1 l2 : l1 ≡ₚ l2 → median l1 = median l2.
Proof. intros Hp. unfold median. by rewrite (sorted_Permutation_eq _ _ Hp). Qed.

End builtin_algebra.

(** ** Further properties of [process] *)

Lemma snapshot_dom l d : snapshot l = inr d → dom d = stats_keys.
Proof.
  unfold snapshot, summary.
  destruct (true_div (sum l) (len l)) as [e | f]; [done |].
  destruct (py_min l) as [e | lo]; [done |].
  destruct (py_max l) as [e | hi]; [done |].
  destruct (median l) as [e | m]; [done |].
  intros [= <-]. rewrite !dom_insert_L, dom_empty_L.
  unfold stats_keys. set_solver.
Qed.

Lemma process_returns_true w w' :
  process w = Returns true w' →
  data (self w) ≠ [] ∧
  ∃ d, snapshot (data (self w)) = inr d ∧ w' = after_process w d.
Proof.
  rewrite process_eq. unfold snapshot, after_process.
  destruct (data (self w)) as [| x t]; [done |].
  destruct (summary (x :: t)) as [e | d]; [done |].
  destruct (median (x :: t)) as [e | m]; [done |].
  intros [= <-]. split; [done |]. by eexists.
Qed.

(** X1: on data of ints, whenever [process] returns [True], the stored
    dictionary has exactly the six keys count, sum, mean, min, max and
    median; count is the number of elements, sum their sum, and min and max
    are elements of the data that bound every element. *)
Theorem process_success_dictionary w w' :
  process w = Returns true w' →
  ∃ d f lo hi med,
    w' = after_process w d ∧ dom d = stats_keys ∧
    d !! "count" = Some (VInt (len (data (self w)))) ∧
    d !! "sum" = Some (VInt (sum (data (self w)))) ∧
    d !! "mean" = Some (VFloat f) ∧
    d !! "min" = Some (VInt lo) ∧ d !! "max" = Some (VInt hi) ∧
    d !! "median" = Some med ∧
    lo ∈ data (self w) ∧ hi ∈ data (self w) ∧
    Forall (λ v, lo <= v <= hi) (data (self w)).
Proof.
  intros (Hl & d & Hd & ->)%process_returns_true.
  destruct (snapshot_lookups _ _ Hd)
    as (f & lo & hi & m & _ & Hlo & Hhi & _ & Hc & Hs & Hmean & Hdlo & Hdhi & Hdm).
  destruct (py_min_spec _ Hl) as (lo' & Hlo' & Hlo_in & Hlo_le).
  destruct (py_max_spec _ Hl) as (hi' & Hhi' & Hhi_in & Hhi_le).
  rewrite Hlo in Hlo'. injection Hlo' as <-.
  rewrite Hhi in Hhi'. injection Hhi' as <-.
  exists d, f, lo, hi, m.
  split_and!; [done | by eapply snapshot_dom | done .. |].
  rewrite Forall_forall in Hlo_le, Hhi_le. apply Forall_forall.
  intros v Hv. split; [by apply Hlo_le | by apply Hhi_le].
Qed.

Lemma process_success_dictionary_witness :
  let w := World (__init__ sample_data "Sample Dataset") [] in
  ∃ d, final (process w) = after_process w d ∧ dom d = stats_keys
       ∧ d !! "count" = Some (VInt 8) ∧ d !! "sum" = Some (VInt 306).
Proof.
  cbv zeta.
  destruct (process_success_dictionary
              (World (__init__ sample_data "Sample Dataset") [])
              (final (process (World (__init__ sample_data "Sample Dataset") []))))
    as (d & f & lo & hi & med & Hw & Hdom & Hc & Hs & _).
  - vm_compute. reflexivity.
  - exists d. split_and!; [exact Hw | exact Hdom | exact Hc | exact Hs].
Defined.

(** X2: when the mean fits a float but the division for the median of an
    even-sized dataset overflows, [process] raises [OverflowError] after it
    has stored the dictionary: [_stats] is left with the five entries count,
    sum, mean, min and max and no median, and [processed] is as it was. *)
Theorem process_median_overflow w a b f :
  data (self w) ≠ [] → len (data (self w)) mod 2 = 0 →
  true_div (sum (data (self w))) (len (data (self w))) = inr f →
  sorted (data (self w)) !! Z.to_nat (len (data (self w)) / 2 - 1) = Some a →
  sorted (data (self w)) !! Z.to_nat (len (data (self w)) / 2) = Some b →
  true_div (a + b) 2 = inl OverflowError →
  ∃ d,
    process w =
      Raises OverflowError
        (World {| data := data (self w); name := name (self w);
                  processed := processed (self w); _stats := Some d |}
               (stdout w))
    ∧ dom d = {["count"; "sum"; "mean"; "min"; "max"]}
    ∧ d !! "median" = None.
Proof.
  intros Hl Hn Hmean Ha Hb Hdiv. rewrite process_eq.
  destruct (median_even _ Hl Hn) as (a' & b' & Ha' & Hb' & _ & Hm).
  rewrite Ha in Ha'. injection Ha' as <-.
  rewrite Hb in Hb'. injection Hb' as <-.
  rewrite Hdiv in Hm.
  destruct (py_min_spec _ Hl) as (lo & Hlo & _).
  destruct (py_max_spec _ Hl) as (hi & Hhi & _).
  unfold summary. rewrite Hmean, Hlo, Hhi, Hm.
  destruct (data (self w)) as [| x t] eqn:Hd; [done |].
  eexists. split; [done |]. split.
  - rewrite !dom_insert_L, dom_empty_L. set_solver.
  - by repeat (rewrite lookup_insert_ne by done).
Qed.

Lemma process_median_overflow_witness :
  let w := World (__init__ [-3 * 2 ^ 1024; 2 ^ 1024; 2 ^ 1024; 2 ^ 1024]
                    default_name) [] in
  ∃ d, process w =
         Raises OverflowError
           (World {| data := data (self w); name := default_name;
                     processed := false; _stats := Some d |} [])
       ∧ d !! "median" = None.
Proof.
  cbv zeta.
  destruct (process_median_overflow
              (World (__init__ [-3 * 2 ^ 1024; 2 ^ 1024; 2 ^ 1024; 2 ^ 1024]
                        default_name) [])
              (2 ^ 1024) (2 ^ 1024) (Float false 0 emin))
    as (d & Hp & _ & Hm); try (vm_compute; reflexivity).
  - discriminate.
  - exists d. split; [exact Hp | exact Hm].
Defined.

(** X3: on data of ints the statistics do not depend on the order of the
    data: on two objects whose lists of ints are rearrangements of each
    other, [process] ends the same way (the same return value or the same
    exception) and, when it returns [True], stores the same dictionary. *)
Theorem process_order_independent w1 w2 :
  data (self w1) ≡ₚ data (self w2) →
  match process w1, process w2 with
  | Returns r1 w1', Returns r2 w2' =>
      r1 = r2 ∧ (r1 = true → _stats (self w1') = _stats (self w2'))
  | Raises e1 _, Raises e2 _ => e1 = e2
  | _, _ => False
  end.
Proof.
  intros Hp. rewrite !process_eq.
  rewrite <- (summary_Permutation _ _ Hp), <- (median_Permutation _ _ Hp).
  destruct (data (self w1)) as [| x1 t1] eqn:H1.
  { by apply Permutation_nil_l in Hp as <-. }
  destruct (data (self w2)) as [| x2 t2] eqn:H2.
  { by apply Permutation_nil_r in Hp. }
  destruct (summary (x1 :: t1)); [done |].
  by destruct (median (x1 :: t1)).
Qed.

Lemma process_order_independent_witness :
  let w1 := World (__init__ sample_data "Sample Dataset") [] in
  let w2 := World (__init__ (sorted sample_data) default_name) [] in
  match process w1, process w2 with
  | Returns r1 w1', Returns r2 w2' =>
      r1 = r2 ∧ (r1 = true → _stats (self w1') = _stats (self w2'))
  | Raises e1 _, Raises e2 _ => e1 = e2
  | _, _ => False
  end.
Proof.
  cbv zeta.
  apply (process_order_independent
           (World (__init__ sample_data "Sample Dataset") [])
           (World (__init__ (sorted sample_data) default_name) [])).
  symmetry. apply sorted_Permutation.
Defined.




(** X14: objects built on one list share it.  When two objects are built
    on a non-empty list [l] of ints of magnitude at most [2^1023], the
    second is processed and the first then appends a non-empty [x], the
    second object sees the data [l ++ x] while its flag is still set and
    its [_stats] is still the dictionary of [l]: its [get_statistics]
    returns, without a diagnostic, statistics whose count is the length of
    [l], not of its data. *)
Theorem shared_list_goes_stale l x na nb out :
  l ≠ [] → within (2 ^ 1023) l → x ≠ [] →
  let h := Shared.run_actions
             [Shared.NewList l; Shared.NewAnalyzer 0 na;
              Shared.NewAnalyzer 0 nb; Shared.Method 1 CallProcess;
              Shared.Method 0 (CallAddData (VList x))]
             (Shared.Heap [] [] out) in
  ∃ d ob w,
    Shared.reachable h ∧
    Shared.objects h !! 1%nat = Some ob ∧ Shared.view h ob = Some w ∧
    data (self w) = l ++ x ∧ processed (self w) = true ∧
    _stats (self w) = Some d ∧ snapshot l = inr d ∧
    d !! "count" = Some (VInt (len l)) ∧ len l < len (data (self w)) ∧
    get_statistics w = Returns (Some d) w.
Proof.
  intros Hl Hb Hx. cbv zeta.
  destruct (snapshot_in_range l Hl Hb) as [d Hd].
  exists d, (Shared.Object 0 nb true (Some d)),
    (World {| data := l ++ x; name := nb; processed := true;
              _stats := Some d |} out).
  assert (Shared.run_actions
            [Shared.NewList l; Shared.NewAnalyzer 0 na;
             Shared.NewAnalyzer 0 nb; Shared.Method 1 CallProcess;
             Shared.Method 0 (CallAddData (VList x))]
            (Shared.Heap [] [] out)
          = Shared.Heap [l ++ x]
              [Shared.Object 0 na false None;
               Shared.Object 0 nb true (Some d)] out) as Hrun.
  { unfold Shared.run_actions. cbn [fold_left].
    set (A := Shared.Object 0 na false None).
    set (B := Shared.Object 0 nb false None).
    set (WA := World {| data := l; name := na; processed := false;
                        _stats := None |} out).
    set (WB := World {| data := l; name := nb; processed := false;
                        _stats := None |} out).
    change (Shared.step (Shared.NewList l) (Shared.Heap [] [] out))
      with (Shared.Heap [l] [] out).
    change (Shared.step (Shared.NewAnalyzer 0 na) (Shared.Heap [l] [] out))
      with (Shared.Heap [l] [A] out).
    change (Shared.step (Shared.NewAnalyzer 0 nb) (Shared.Heap [l] [A] out))
      with (Shared.Heap [l] [A; B] out).
    change (Shared.step (Shared.Method 1 CallProcess)
              (Shared.Heap [l] [A; B] out))
      with (Shared.store (Shared.Heap [l] [A; B] out) 1 B (run CallProcess WB)).
    cbn [run]. rewrite (process_snapshot WB d Hl Hd).
    change (Shared.store (Shared.Heap [l] [A; B] out) 1 B
              (final (Returns true (after_process WB d))))
      with (Shared.Heap [l] [A; Shared.Object 0 nb true (Some d)] out).
    change (Shared.step (Shared.Method 0 (CallAddData (VList x)))
              (Shared.Heap [l] [A; Shared.Object 0 nb true (Some d)] out))
      with (Shared.store
              (Shared.Heap [l] [A; Shared.Object 0 nb true (Some d)] out)
              0 A (run (CallAddData (VList x)) WA)).
    cbn [run]. by rewrite add_data_eq. }
  split_and!.
  - unfold Shared.run_actions. cbn [fold_left].
    do 5 apply Shared.reachable_step. apply Shared.reachable_empty.
  - by rewrite Hrun.
  - by rewrite Hrun.
  - done.
  - done.
  - done.
  - done.
  - by destruct (snapshot_lookups _ _ Hd)
      as (_ & _ & _ & _ & _ & _ & _ & _ & ? & _).
  - cbn [self data]. rewrite len_app. pose proof (len_pos x Hx). lia.
  - by rewrite get_statistics_eq.
Qed.

Lemma shared_list_goes_stale_witness :
  let h := Shared.run_actions
             [Shared.NewList [1]; Shared.NewAnalyzer 0 "a";
              Shared.NewAnalyzer 0 "b"; Shared.Method 1 CallProcess;
              Shared.Method 0 (CallAddData (VList [2]))]
             (Shared.Heap [] [] []) in
  ∃ d ob w,
    Shared.reachable h ∧
    Shared.objects h !! 1%nat = Some ob ∧ Shared.view h ob = Some w ∧
    data (self w) = [1; 2] ∧ processed (self w) = true ∧
    _stats (self w) = Some d ∧ snapshot [1] = inr d ∧
    d !! "count" = Some (VInt 1) ∧ 1 < len (data (self w)) ∧
    get_statistics w = Returns (Some d) w.
Proof.
  cbv zeta.
  apply (shared_list_goes_stale [1] [2] "a" "b" []).
  - discriminate.
  - unfold within. repeat constructor; vm_compute; discriminate.
  - discriminate.
Defined.

(** ** Further properties of [add_data] and of histories *)

(** X5: two appends in a row are one append of the concatenation: the same
    return value and the same final object and output. *)
Theorem add_data_twice l1 l2 w :
  add_data (VList l2) (final (add_data (VList l1) w))
  = add_data (VList (l1 ++ l2)) w.
Proof.
  rewrite !add_data_eq. cbn [as_list final self data name _stats stdout].
  by rewrite app_assoc.
Qed.

Lemma run_data c w :
  data (self (run c w)) = data (self w) ++ accepted c
  ∧ name (self (run c w)) = name (self w).
Proof.
  destruct c as [| | v]; cbn [run accepted].
  - by rewrite process_final_data, process_final_name, app_nil_r.
  - by rewrite get_statistics_final, app_nil_r.
  - rewrite add_data_eq. destruct (as_list v) as [l |]; [done |].
    cbn [final self default]. by rewrite app_nil_r.
Qed.

(** X6: over any history of calls the name never changes and the data only
    grow at the end: they are the initial data followed by the arguments of
    the accepted [add_data] calls, in call order.  No method removes or
    reorders elements. *)
Theorem run_all_data cs w :
  data (self (run_all cs w)) = data (self w) ++ flat_map accepted cs
  ∧ name (self (run_all cs w)) = name (self w).
Proof.
  unfold run_all. revert w.
  induction cs as [| c cs IH]; intros w; cbn [fold_left flat_map].
  { by rewrite app_nil_r. }
  destruct (IH (run c w)) as [-> ->].
  destruct (run_data c w) as [-> ->]. by rewrite app_assoc.
Qed.

(** X7: appending and recomputing on data of ints, as [main] does: when
    [process] succeeded before and succeeds again after [add_data(l)] with
    [l] a list of ints, the new count is the old
    count plus the length of [l], the new sum the old sum plus the sum of
    [l], the new min and max the old ones taken against the elements of
    [l]; after appending the empty list the dictionary is the old one. *)
Theorem recompute_after_add_data w l w1 w2 :
  process w = Returns true w1 →
  process (final (add_data (VList l) w1)) = Returns true w2 →
  ∃ d1 d2 n t lo hi,
    _stats (self w1) = Some d1 ∧ _stats (self w2) = Some d2 ∧
    d1 !! "count" = Some (VInt n) ∧
    d2 !! "count" = Some (VInt (n + len l)) ∧
    d1 !! "sum" = Some (VInt t) ∧
    d2 !! "sum" = Some (VInt (t + sum l)) ∧
    d1 !! "min" = Some (VInt lo) ∧
    d2 !! "min" = Some (VInt (fold_left Z.min l lo)) ∧
    d1 !! "max" = Some (VInt hi) ∧
    d2 !! "max" = Some (VInt (fold_left Z.max l hi)) ∧
    (l = [] → d2 = d1).
Proof.
  intros (_ & d1 & Hd1 & ->)%process_returns_true.
  intros (_ & d2 & Hd2 & ->)%process_returns_true.
  rewrite add_data_eq in Hd2.
  cbn [as_list final self data after_process] in Hd2.
  destruct (snapshot_lookups _ _ Hd1)
    as (f1 & lo & hi & m1 & _ & Hlo & Hhi & _ & Hc1 & Hs1 & _ & Hlo1 & Hhi1 & _).
  destruct (snapshot_lookups _ _ Hd2)
    as (f2 & lo2 & hi2 & m2 & _ & Hlo' & Hhi' & _ & Hc2 & Hs2 & _ & Hlo2 & Hhi2 & _).
  rewrite (py_min_app _ l _ Hlo) in Hlo'. injection Hlo' as <-.
  rewrite (py_max_app _ l _ Hhi) in Hhi'. injection Hhi' as <-.
  rewrite len_app in Hc2. rewrite sum_app in Hs2.
  exists d1, d2, (len (data (self w))), (sum (data (self w))), lo, hi.
  split_and!; try done.
  intros ->. rewrite app_nil_r in Hd2. congruence.
Qed.

Lemma recompute_after_add_data_witness :
  let w1 := final (process (World (__init__ sample_data "Sample Dataset") [])) in
  let w2 := final (process (final (add_data (VList [100; 200; 300]) w1))) in
  ∃ d1 d2 n t lo hi,
    _stats (self w1) = Some d1 ∧ _stats (self w2) = Some d2 ∧
    d1 !! "count" = Some (VInt n) ∧
    d2 !! "count" = Some (VInt (n + 3)) ∧
    d1 !! "sum" = Some (VInt t) ∧
    d2 !! "sum" = Some (VInt (t + 600)) ∧
    d1 !! "min" = Some (VInt lo) ∧
    d2 !! "min" = Some (VInt (Z.min (Z.min (Z.min lo 100) 200) 300)) ∧
    d1 !! "max" = Some (VInt hi) ∧
    d2 !! "max" = Some (VInt (Z.max (Z.max (Z.max hi 100) 200) 300)) ∧
    ([100; 200; 300] = [] → d2 = d1).
Proof.
  cbv zeta.
  apply (recompute_after_add_data
           (World (__init__ sample_data "Sample Dataset") []) [100; 200; 300]);
    vm_compute; reflexivity.
Defined.

(** ** The mean *)




(** X9: for a non-empty dataset of ints of magnitude at most [2^52],
    [process] succeeds and the stored mean lies between the stored min and
    max under Python's comparison. *)
Theorem mean_between_min_and_max w :
  data (self w) ≠ [] → within (2 ^ 52) (data (self w)) →
  ∃ d lo hi f,
    process w = Returns true (after_process w d) ∧
    d !! "min" = Some (VInt lo) ∧ d !! "max" = Some (VInt hi) ∧
    d !! "mean" = Some (VFloat f) ∧
    py_le (VInt lo) (VFloat f) = Some true ∧
    py_le (VFloat f) (VInt hi) = Some true.
Proof.
  intros Hl Hb. set (l := data (self w)) in *.
  assert (within (2 ^ 1023) l) as Hb'.
  { apply (within_mono (2 ^ 52)); [| done]. apply Z.pow_le_mono_r; lia. }
  destruct (snapshot_in_range _ Hl Hb') as [d Hd].
  destruct (snapshot_lookups _ _ Hd)
    as (f & lo & hi & m & Hf & Hlo & Hhi & _ & _ & _ & Hmean & Hdlo & Hdhi & _).
  destruct (py_min_spec l Hl) as (lo' & Hlo' & Hlo_in & Hlo_le).
  destruct (py_max_spec l Hl) as (hi' & Hhi' & Hhi_in & Hhi_le).
  rewrite Hlo in Hlo'. injection Hlo' as <-.
  rewrite Hhi in Hhi'. injection Hhi' as <-.
  assert (Forall (λ v, lo <= v <= hi) l) as Hall.
  { rewrite Forall_forall in Hlo_le, Hhi_le. apply Forall_forall.
    intros v Hv. split; [by apply Hlo_le | by apply Hhi_le]. }
  unfold within in Hb. rewrite Forall_forall in Hb.
  pose proof (Hb _ Hlo_in). pose proof (Hb _ Hhi_in).
  pose proof (len_pos l Hl) as Hn.
  destruct (int_true_divide_between (sum l) (len l) lo hi) as (f' & Hf' & H1 & H2);
    [done | | lia | lia |].
  { pose proof (sum_between lo hi l Hall). lia. }
  unfold true_div in Hf. rewrite Hf' in Hf. injection Hf as <-.
  exists d, lo, hi, f'.
  split_and!; [by apply process_snapshot | done .. | |];
    unfold py_le; cbn [num_value]; f_equal; by apply Qle_bool_iff.
Qed.

Lemma mean_between_min_and_max_witness :
  let w := World (__init__ sample_data "Sample Dataset") [] in
  ∃ d lo hi f,
    process w = Returns true (after_process w d) ∧
    d !! "min" = Some (VInt lo) ∧ d !! "max" = Some (VInt hi) ∧
    d !! "mean" = Some (VFloat f) ∧
    py_le (VInt lo) (VFloat f) = Some true ∧
    py_le (VFloat f) (VInt hi) = Some true.
Proof.
  cbv zeta.
  apply (mean_between_min_and_max (World (__init__ sample_data "Sample Dataset") [])).
  - discriminate.
  - unfold within. repeat constructor; vm_compute; discriminate.
Defined.

(** ** The median splits the data *)

Section median_split.

Context (P : Z → Prop) `{∀ v, Decision (P v)}.

Lemma length_filter_Forall (l : list Z) :
  Forall P l → length (filter P l) = length l.
Proof.
  induction 1 as [| v l Hv _ IH]; [done |].
  rewrite filter_cons_True by done. cbn [length]. by rewrite IH.
Qed.

(** In an ascending list, the elements up to position [k] satisfy whatever
    holds below [s[k]], and those from position [k] on whatever holds
    above. *)
Lemma count_below_sorted (s : list Z) k a :
  Sorted Z.le s → s !! k = Some a → (∀ v, v <= a → P v) →
  (S k <= length (filter P s))%nat.
Proof.
  intros Hs Hk HP. pose proof (lookup_lt_Some _ _ _ Hk) as Hlt.
  rewrite <- (take_drop (S k) s), filter_app, length_app.
  rewrite length_filter_Forall; [rewrite length_take_le; lia |].
  apply Forall_lookup_2. intros i x [Hx Hi]%lookup_take_Some.
  apply HP. apply (Sorted_le_lookup s i k); [done .. | lia].
Qed.

Lemma count_above_sorted (s : list Z) k b :
  Sorted Z.le s → s !! k = Some b → (∀ v, b <= v → P v) →
  (length s - k <= length (filter P s))%nat.
Proof.
  intros Hs Hk HP.
  rewrite <- (take_drop k s) at 2. rewrite filter_app, length_app.
  rewrite (length_filter_Forall (drop k s)); [rewrite length_drop; lia |].
  apply Forall_lookup_2. intros i x Hx. rewrite lookup_drop in Hx.
  apply HP. apply (Sorted_le_lookup s k (k + i)); [done .. | lia].
Qed.

End median_split.

Lemma count_le_sorted m l : count_le m l = count_le m (sorted l).
Proof.
  unfold count_le. apply Permutation_length.
  by rewrite (sorted_Permutation l).
Qed.

Lemma count_ge_sorted m l : count_ge m l = count_ge m (sorted l).
Proof.
  unfold count_ge. apply Permutation_length.
  by rewrite (sorted_Permutation l).
Qed.

(** X10: for a non-empty dataset of ints of magnitude at most [2^52],
    [process] succeeds and the stored median splits the data: at least half
    of the elements are at most the median and at least half are at least
    the median, under Python's comparison. *)
Theorem median_splits_data w :
  data (self w) ≠ [] → within (2 ^ 52) (data (self w)) →
  ∃ d med,
    process w = Returns true (after_process w d) ∧
    d !! "median" = Some med ∧
    (length (data (self w)) <= 2 * count_le med (data (self w)))%nat ∧
    (length (data (self w)) <= 2 * count_ge med (data (self w)))%nat.
Proof.
  intros Hl Hb. set (l := data (self w)) in *.
  assert (within (2 ^ 1023) l) as Hb'.
  { apply (within_mono (2 ^ 52)); [| done]. apply Z.pow_le_mono_r; lia. }
  destruct (snapshot_in_range _ Hl Hb') as [d Hd].
  destruct (snapshot_lookups _ _ Hd)
    as (_ & _ & _ & m & _ & _ & _ & Hm & _ & _ & _ & _ & _ & Hdm).
  exists d, m. split; [by apply process_snapshot |]. split; [done |].
  rewrite count_le_sorted, count_ge_sorted. unfold count_le, count_ge.
  pose proof (sorted_Sorted l) as Hs.
  pose proof (len_pos l Hl) as Hn.
  pose proof (len_sorted l) as Hlen. unfold len in Hlen, Hn.
  pose proof (Permutation_length (sorted_Permutation l)) as Hlen'.
  pose proof (Z.div_mod (len l) 2) as Hdiv.
  pose proof (Z.mod_pos_bound (len l) 2) as Hmod.
  destruct (Z.eq_dec (len l mod 2) 0) as [Hn2 | Hn2].
  - destruct (median_even l Hl Hn2) as (a & b & Ha & Hb2 & Hab & Hm').
    apply within_sorted in Hb.
    pose proof (within_lookup _ _ _ _ Hb Ha).
    pose proof (within_lookup _ _ _ _ Hb Hb2).
    destruct (int_true_divide_half (a + b)) as (g & Hg & Hq).
    { change (2 ^ 53) with (2 * 2 ^ 52). lia. }
    unfold true_div in Hm'. rewrite Hg in Hm'. rewrite Hm' in Hm.
    injection Hm as <-. unfold len in *. split.
    + pose proof (count_below_sorted
                    (λ v, py_le (VInt v) (VFloat g) = Some true)
                    (sorted l) _ a Hs Ha) as Hc.
      specialize (Hc ltac:(intros v Hv; apply (py_le_int_half v (a + b)); [done | lia])).
      lia.
    + pose proof (count_above_sorted
                    (λ v, py_le (VFloat g) (VInt v) = Some true)
                    (sorted l) _ b Hs Hb2) as Hc.
      specialize (Hc ltac:(intros v Hv; apply (py_le_half_int v (a + b)); [done | lia])).
      lia.
  - destruct (median_odd l Hl Hn2) as (a & Ha & Hm').
    rewrite Hm' in Hm. injection Hm as <-. unfold len in *. split.
    + pose proof (count_below_sorted
                    (λ v, py_le (VInt v) (VInt a) = Some true)
                    (sorted l) _ a Hs Ha) as Hc.
      specialize (Hc ltac:(intros v Hv; by apply py_le_int_int)).
      lia.
    + pose proof (count_above_sorted
                    (λ v, py_le (VInt a) (VInt v) = Some true)
                    (sorted l) _ a Hs Ha) as Hc.
      specialize (Hc ltac:(intros v Hv; by apply py_le_int_int)).
      lia.
Qed.

Lemma median_splits_data_witness :
  let w := World (__init__ sample_data "Sample Dataset") [] in
  ∃ d med,
    process w = Returns true (after_process w d) ∧
    d !! "median" = Some med ∧
    (8 <= 2 * count_le med sample_data)%nat ∧
    (8 <= 2 * count_ge med sample_data)%nat.
Proof.
  cbv zeta.
  apply (median_splits_data (World (__init__ sample_data "Sample Dataset") [])).
  - discriminate.
  - unfold within. repeat constructor; vm_compute; discriminate.
Defined.

(** ** The description *)

Section description.

Lemma string_app_cons a (s t : string) : String a s +:+ t = String a (s +:+ t).
Proof. done. Qed.

Lemma string_app_assoc (s t u : string) : (s +:+ t) +:+ u = s +:+ (t +:+ u).
Proof.
  induction s as [| a s IH]; [done |].
  by rewrite !string_app_cons, IH.
Qed.

Lemma string_length_app (s t : string) :
  String.length (s +:+ t) = (String.length s + String.length t)%nat.
Proof.
  induction s as [| a s IH]; [done |].
  rewrite string_app_cons. cbn [String.length]. by rewrite IH.
Qed.

(** Two strings that end in suffixes of the same length agree on both
    parts. *)
Lemma string_app_inj_suffix (s1 s2 t1 t2 : string) :
  String.length t1 = String.length t2 →
  s1 +:+ t1 = s2 +:+ t2 → s1 = s2 ∧ t1 = t2.
Proof.
  intros Hlen. revert s2.
  induction s1 as [| a s1 IH]; intros [| b s2] Heq.
  - done.
  - exfalso. apply (f_equal String.length) in Heq.
    change ("" +:+ t1) with t1 in Heq.
    rewrite string_length_app in Heq. cbn [String.length] in Heq. lia.
  - exfalso. apply (f_equal String.length) in Heq.
    change ("" +:+ t2) with t2 in Heq.
    rewrite string_length_app in Heq. cbn [String.length] in Heq. lia.
  - rewrite !string_app_cons in Heq. injection Heq as -> Heq.
    by destruct (IH _ Heq) as [-> ->].
Qed.

End description.

(** X11: the description determines the count and the flag: two objects of
    the same name have the same [__str__] only if they hold the same number
    of elements and agree on [processed]. *)
Theorem str_determines_count_and_flag s1 s2 :
  name s1 = name s2 → __str__ s1 = __str__ s2 →
  length (data s1) = length (data s2) ∧ processed s1 = processed s2.
Proof.
  intros Hname. unfold __str__. rewrite Hname.
  intros Heq. do 3 apply (inj (String.app _)) in Heq.
  assert (pretty (len (data s1)) = pretty (len (data s2))
          ∧ processed s1 = processed s2) as [Hp ->].
  { destruct (processed s1), (processed s2); cbn [bool_repr] in Heq.
    - apply string_app_inj_suffix in Heq as [? _]; done.
    - change (", processed=" +:+ "True" +:+ ")")
        with (", processed" +:+ "=True)") in Heq.
      change (", processed=" +:+ "False" +:+ ")")
        with (", processed=" +:+ "False)") in Heq.
      rewrite <- !string_app_assoc in Heq.
      by apply string_app_inj_suffix in Heq as [_ ?].
    - change (", processed=" +:+ "True" +:+ ")")
        with (", processed" +:+ "=True)") in Heq.
      change (", processed=" +:+ "False" +:+ ")")
        with (", processed=" +:+ "False)") in Heq.
      rewrite <- !string_app_assoc in Heq.
      by apply string_app_inj_suffix in Heq as [_ ?].
    - apply string_app_inj_suffix in Heq as [? _]; done. }
  split; [| done]. apply (inj pretty) in Hp. unfold len in Hp. lia.
Qed.

Lemma str_determines_count_and_flag_witness :
  let s1 := __init__ sample_data "Sample Dataset" in
  let s2 := self (final (add_data (VList [34; 12])
                    (World (__init__ [1; 2; 3; 4; 5; 6] "Sample Dataset") []))) in
  __str__ s1 = __str__ s2
  ∧ length (data s1) = length (data s2) ∧ processed s1 = processed s2.
Proof.
  cbv zeta.
  assert (__str__ (__init__ sample_data "Sample Dataset")
          = __str__ (self (final (add_data (VList [34; 12])
                       (World (__init__ [1; 2; 3; 4; 5; 6] "Sample Dataset") [])))))
    as Heq by (vm_compute; reflexivity).
  split; [exact Heq |].
  apply (str_determines_count_and_flag _ _ eq_refl Heq).
Defined.

(** ** Recovery and stale caches *)

(** X12: the empty-data failure is recoverable: from any world with empty
    data, [process] prints the diagnostic, returns [False] and leaves the
    object as it was; an [add_data] of a non-empty list of ints of
    magnitude at most [2^1023] then makes the next [process] return
    [True], with count the length of the list, and [get_statistics] then
    returns that dictionary without printing. *)
Theorem process_recovers_after_add_data w l :
  data (self w) = [] → l ≠ [] → within (2 ^ 1023) l →
  let w1 := final (process w) in
  let w2 := final (add_data (VList l) w1) in
  process w = Returns false (World (self w) (stdout w ++ [no_data_msg])) ∧
  ∃ d, process w2 = Returns true (after_process w2 d)
       ∧ d !! "count" = Some (VInt (len l))
       ∧ get_statistics (after_process w2 d)
         = Returns (Some d) (after_process w2 d).
Proof.
  intros Hd Hl Hb. cbv zeta. rewrite process_eq, Hd.
  cbn [final]. split; [done |].
  rewrite add_data_eq. cbn [as_list final self]. rewrite Hd, app_nil_l.
  destruct (snapshot_in_range _ Hl Hb) as [d Hsnap].
  exists d. split_and!.
  - by apply process_snapshot.
  - by destruct (snapshot_lookups _ _ Hsnap)
      as (_ & _ & _ & _ & _ & _ & _ & _ & ? & _).
  - by rewrite get_statistics_eq.
Qed.

Lemma process_recovers_after_add_data_witness :
  let w := World (__init__ [] default_name) [] in
  let w2 := final (add_data (VList [100; 200; 300]) (final (process w))) in
  process w = Returns false (World (self w) [no_data_msg])
  ∧ ∃ d, process w2 = Returns true (after_process w2 d)
         ∧ d !! "count" = Some (VInt 3).
Proof.
  cbv zeta.
  destruct (process_recovers_after_add_data
              (World (__init__ [] default_name) []) [100; 200; 300])
    as (Hf & d & Hp & Hc & _).
  - reflexivity.
  - discriminate.
  - unfold within. repeat constructor; vm_compute; discriminate.
  - split; [exact Hf |]. exists d. split; [exact Hp | exact Hc].
Defined.




Example str_of_sample :
  __str__ (__init__ sample_data "Sample Dataset")
  = "DataAnalyzer(name='Sample Dataset', count=8, processed=False)".
Proof. vm_compute. reflexivity. Qed.
